(** * file_config_reader: a shallow embedding of [FileConfigReader]

    The development follows [src/file_config_reader.py].  Text is modelled
    by [string], one character per code point (code points below 256);
    Python dictionaries by [gmap]; the two class-level caches by an explicit
    state threaded through a small state-and-exception monad; the file system
    by a snapshot that answers the [os] calls the module makes
    ([os.path.exists], [os.path.getmtime], [open], [os.walk], [os.getcwd]).
    Path functions are those of [posixpath] ([os.sep] is the slash), written
    after the library's code.  Modification times are integers (they are
    only compared for equality).  Symbolic links, decoding errors of a file
    that is not UTF-8 and changes of the file system during one call are
    outside the model; [json.load] and the [csv] readers are parameters,
    [json.load] giving any JSON value. *)

From stdpp Require Import gmap strings list fin_maps sorting.
From Stdlib Require Import ZArith Lia.
From Stdlib Require Import Ascii.

Local Open Scope Z_scope.
Local Open Scope nat_scope.

(** ** Python [str] methods used by the module *)

Module Str.

Definition is_empty (s : string) : bool :=
  match s with EmptyString => true | String _ _ => false end.

(** [s.startswith(p)] *)
Fixpoint startswith (p s : string) : bool :=
  match p, s with
  | EmptyString, _ => true
  | String a p', String b s' => bool_decide (a = b) && startswith p' s'
  | String _ _, EmptyString => false
  end.

(** The last character of a string, if any. *)
Fixpoint last (s : string) : option ascii :=
  match s with
  | EmptyString => None
  | String a EmptyString => Some a
  | String _ t => last t
  end.

(** [s.endswith(c)] for a one-character suffix. *)
Definition endswith_char (c : ascii) (s : string) : bool :=
  bool_decide (last s = Some c).

(** [s.lstrip(...)]: drop the leading characters that satisfy [p]. *)
Fixpoint lstrip_with (p : ascii → bool) (s : string) : string :=
  match s with
  | EmptyString => EmptyString
  | String a t => if p a then lstrip_with p t else s
  end.

(** [s.rstrip(...)]: drop the trailing characters that satisfy [p]. *)
Fixpoint rstrip_with (p : ascii → bool) (s : string) : string :=
  match s with
  | EmptyString => EmptyString
  | String a t =>
      let r := rstrip_with p t in
      if is_empty r && p a then EmptyString else String a r
  end.

Definition strip_with (p : ascii → bool) (s : string) : string :=
  lstrip_with p (rstrip_with p s).

(** Characters [str.strip()] removes: [c.isspace()] on code points below 256. *)
Definition is_space (c : ascii) : bool :=
  let n := nat_of_ascii c in
  ((9 <=? n) && (n <=? 13)) || ((28 <=? n) && (n <=? 32))
  || (n =? 133) || (n =? 160).

(** [s.strip()] *)
Definition strip (s : string) : string := strip_with is_space s.

Definition is_char (c : ascii) (a : ascii) : bool := bool_decide (a = c).

(** [s.strip(c)] and [s.rstrip(c)] for a one-character argument. *)
Definition strip_char (c : ascii) (s : string) : string := strip_with (is_char c) s.
Definition rstrip_char (c : ascii) (s : string) : string := rstrip_with (is_char c) s.

(** [s.count(c)] for a one-character argument. *)
Fixpoint count (c : ascii) (s : string) : nat :=
  match s with
  | EmptyString => 0
  | String a t => (if bool_decide (a = c) then 1 else 0) + count c t
  end.

(** [s.split(c)]: never the empty list. *)
Fixpoint split (c : ascii) (s : string) : list string :=
  match s with
  | EmptyString => [EmptyString]
  | String a t =>
      if bool_decide (a = c) then EmptyString :: split c t
      else match split c t with
           | h :: r => String a h :: r
           | [] => [String a EmptyString]
           end
  end.

(** [s.split(c, 1)]: one piece when [c] does not occur, else two. *)
Fixpoint split1 (c : ascii) (s : string) : list string :=
  match s with
  | EmptyString => [EmptyString]
  | String a t =>
      if bool_decide (a = c) then [EmptyString; t]
      else match split1 c t with
           | h :: r => String a h :: r
           | [] => [String a EmptyString]
           end
  end.

(** [sep.join(l)] *)
Fixpoint join (sep : string) (l : list string) : string :=
  match l with
  | [] => EmptyString
  | [x] => x
  | x :: r => x +:+ sep +:+ join sep r
  end.

(** [s.rfind(c) + 1]: length of the prefix up to and including the last
    occurrence of [c], [0] when [c] does not occur; returned as the pair
    [(s[:i], s[i:])]. *)
Fixpoint rsplit_at (c : ascii) (s : string) : string * string :=
  match s with
  | EmptyString => (EmptyString, EmptyString)
  | String a t =>
      let '(h, b) := rsplit_at c t in
      if is_empty h && negb (bool_decide (a = c)) then (EmptyString, String a b)
      else (String a h, b)
  end.

(** Does [c] occur in [s]? *)
Definition mem (c : ascii) (s : string) : bool := negb (count c s =? 0).

(** [sub in s]: [sub] is a substring of [s]. *)
Fixpoint contains (sub s : string) : bool :=
  startswith sub s
  || match s with
     | EmptyString => false
     | String _ t => contains sub t
     end.

(** [s == c * len(s)]: every character of [s] is [c]. *)
Definition all_char (c : ascii) (s : string) : bool :=
  is_empty (lstrip_with (is_char c) s).

(** [c * n] *)
Fixpoint repeat_char (c : ascii) (n : nat) : string :=
  match n with 0 => EmptyString | S n' => String c (repeat_char c n') end.

(** [s.lower()] on code points below 256. *)
Definition lower_char (c : ascii) : ascii :=
  let n := nat_of_ascii c in
  if ((65 <=? n) && (n <=? 90))
     || ((192 <=? n) && (n <=? 222) && negb (n =? 215))
  then ascii_of_nat (n + 32) else c.

Fixpoint lower (s : string) : string :=
  match s with
  | EmptyString => EmptyString
  | String a t => String (lower_char a) (lower t)
  end.

End Str.

(** Iterating over a text file opened with the default [newline=None]:
    the file's text cut after each line end, with [\r\n] and [\r] read as
    [\n]; a last line without a line end is kept. *)
Fixpoint file_lines (s : string) : list string :=
  match s with
  | EmptyString => []
  | String a t =>
      if bool_decide (a = "010"%char) then String "010" "" :: file_lines t
      else if bool_decide (a = "013"%char) then
        match t with
        | String "010"%char _ => file_lines t
        | _ => String "010" "" :: file_lines t
        end
      else match file_lines t with
           | h :: r => String a h :: r
           | [] => [String a EmptyString]
           end
  end.

(** Reading the whole text of a file opened with the default
    [newline=None]: [\r\n] and [\r] are read as [\n]. *)
Fixpoint universal_newlines (s : string) : string :=
  match s with
  | EmptyString => EmptyString
  | String a t =>
      if bool_decide (a = "013"%char) then
        match t with
        | String "010"%char _ => universal_newlines t
        | _ => String "010" (universal_newlines t)
        end
      else String a (universal_newlines t)
  end.

(** ** Exceptions and results *)

(** The exception classes the module raises or lets through, each with the
    argument it is raised with. *)
Inductive exn :=
  | FileNotFoundError (msg : string)
  | IsADirectoryError (msg : string)
  | KeyError (msg : string)
  | ValueError (msg : string)
  | TypeError (msg : string)
  | AttributeError (msg : string)
  | JSONDecodeError (msg : string).

Inductive result (A : Type) :=
  | Ok (a : A)
  | Raise (e : exn).
Arguments Ok {A} a.
Arguments Raise {A} e.

#[global] Instance result_ret : MRet result := λ A a, Ok a.
#[global] Instance result_bind : MBind result := λ A B k r,
  match r with Ok a => k a | Raise e => Raise e end.
#[global] Instance result_fmap : FMap result := λ A B f r,
  match r with Ok a => Ok (f a) | Raise e => Raise e end.

(** ** [posixpath] *)

Module posixpath.

Definition sep : ascii := "/"%char.

(** [os.path.join(a, b)] *)
Definition join (a b : string) : string :=
  if Str.startswith "/" b then b
  else if Str.is_empty a || Str.endswith_char sep a then a +:+ b
  else a +:+ "/" +:+ b.

(** [os.path.join] applied to the elements of a non-empty list. *)
Definition join_all (l : list string) : string :=
  match l with
  | [] => EmptyString
  | a :: r => fold_left join r a
  end.

(** [os.path.basename(p)] *)
Definition basename (p : string) : string := snd (Str.rsplit_at sep p).

(** [os.path.dirname(p)] *)
Definition dirname (p : string) : string :=
  let head := fst (Str.rsplit_at sep p) in
  if negb (Str.is_empty head) && negb (Str.all_char sep head)
  then Str.rstrip_char sep head
  else head.

(** One or two leading slashes are kept apart, three or more count as one. *)
Definition initial_slashes (path : string) : nat :=
  if Str.startswith "/" path then
    if Str.startswith "//" path && negb (Str.startswith "///" path) then 2 else 1
  else 0.

(** One turn of the loop over the components in [normpath]. *)
Definition norm_step (initial : nat) (new_comps : list string) (comp : string)
    : list string :=
  if bool_decide (comp = "" ∨ comp = ".") then new_comps
  else if bool_decide (comp ≠ "..")
          || (bool_decide (initial = 0) && bool_decide (new_comps = []))
          || bool_decide (last new_comps = Some "..")
  then new_comps ++ [comp]
  else removelast new_comps.

(** [os.path.normpath(path)] *)
Definition normpath (path : string) : string :=
  if Str.is_empty path then "."
  else
    let initial := initial_slashes path in
    let comps := fold_left (norm_step initial) (Str.split sep path) [] in
    let path := Str.repeat_char sep initial +:+ Str.join "/" comps in
    if Str.is_empty path then "." else path.

(** [os.path.isabs(p)] *)
Definition isabs (p : string) : bool := Str.startswith "/" p.

(** [os.path.abspath(path)], with the working directory [cwd]. *)
Definition abspath (cwd path : string) : string :=
  if isabs path then normpath path else normpath (join cwd path).

(** Length of the longest common prefix of two component lists. *)
Fixpoint common_len (l1 l2 : list string) : nat :=
  match l1, l2 with
  | a :: r1, b :: r2 => if bool_decide (a = b) then S (common_len r1 r2) else 0
  | _, _ => 0
  end.

Definition components (p : string) : list string :=
  filter (λ x, x ≠ "") (Str.split sep p).

(** [os.path.relpath(path, start)] for a non-empty [path] (on the empty
    path [posixpath] raises; [tree_scan] passes directory paths that extend
    its non-empty root argument). *)
Definition relpath (cwd path start : string) : string :=
  let start_list := components (abspath cwd start) in
  let path_list := components (abspath cwd path) in
  let i := common_len start_list path_list in
  let rel_list := replicate (length start_list - i) ".." ++ drop i path_list in
  match rel_list with
  | [] => "."
  | _ => join_all rel_list
  end.

(** [os.path.splitext(p)[1]]: the extension starts at the last dot of the
    base name, unless only dots come before it. *)
Definition splitext_ext (p : string) : string :=
  let '(stem, ext) := Str.rsplit_at "." (basename p) in
  if Str.all_char "." stem then EmptyString else "." +:+ ext.

End posixpath.

(** ** The file system snapshot *)

(** A directory as [os.scandir] shows it: the names of its entries that are
    not directories, and its sub-directories. *)
#[local] Unset Elimination Schemes.
Inductive dir :=
  | Dir (filenames : list string) (subdirs : list (string * dir)).
#[local] Set Elimination Schemes.

Inductive node :=
  | RegularFile (mtime : Z) (content : string)
  | Directory (mtime : Z) (d : dir).

(** What the [os] calls answer during one operation: the working directory
    and what sits at each path string the module asks about. *)
Record world := World {
  getcwd : string;
  at_path : gmap string node
}.

(** [os.path.exists(path)] *)
Definition path_exists (w : world) (path : string) : bool :=
  bool_decide (is_Some (at_path w !! path)).

(** [os.path.getmtime(path)] on an existing path. *)
Definition getmtime (w : world) (path : string) : Z :=
  match at_path w !! path with
  | Some (RegularFile m _) | Some (Directory m _) => m
  | None => 0%Z
  end.

(** [open(path, 'r', encoding='utf-8')]: the decoded text of the file as
    it is stored; the translation of line ends is done where the text is
    read ([file_lines], [universal_newlines]). *)
Definition read_text (w : world) (path : string) : result string :=
  match at_path w !! path with
  | Some (RegularFile _ content) => Ok content
  | Some (Directory _ _) => Raise (IsADirectoryError path)
  | None => Raise (FileNotFoundError path)
  end.

(** [os.walk(top)] over the directory [d] found at [top]: top-down, one
    triple [(dirpath, dirnames, filenames)] per directory. *)
Fixpoint walk (top : string) (d : dir) : list (string * list string * list string) :=
  match d with
  | Dir fs ds =>
      (top, ds.*1, fs) ::
      (fix walk_subdirs (l : list (string * dir)) :=
         match l with
         | [] => []
         | (name, d') :: r => walk (posixpath.join top name) d' ++ walk_subdirs r
         end) ds
  end.

(** [os.walk(top)]: nothing when [top] is not a directory. *)
Definition os_walk (w : world) (top : string)
    : list (string * list string * list string) :=
  match at_path w !! top with
  | Some (Directory _ d) => walk top d
  | _ => []
  end.

(** ** The format decoders of the module *)

(** One turn of the loop over the lines in [load_sql]; the state is
    [(commands, current_command)]. *)
Definition load_sql_step (st : list string * list string) (line : string)
    : list string * list string :=
  let '(commands, current_command) := st in
  let line := Str.strip line in
  if Str.startswith "--" line || Str.is_empty line then st
  else
    let current_command := current_command ++ [line] in
    if Str.endswith_char ";" line
    then (commands ++ [Str.strip (Str.join " " current_command)], [])
    else (commands, current_command).

(** The statements [load_sql] returns for a file with the given text. *)
Definition sql_commands (content : string) : list string :=
  let '(commands, current_command) :=
    fold_left load_sql_step (file_lines content) ([], []) in
  match current_command with
  | [] => commands
  | _ => commands ++ [Str.strip (Str.join " " current_command)]
  end.

Definition load_sql (w : world) (path : string) : result (list string) :=
  if negb (path_exists w path)
  then Raise (FileNotFoundError ("SQL file not found: " +:+ path))
  else content ← read_text w path; Ok (sql_commands content).


(** A Python [float]: a finite value [mantissa * 2 ^ exponent] with its
    sign, an infinity or a NaN. *)
Inductive pyfloat :=
  | Finite (negative : bool) (mantissa : N) (exponent : Z)
  | Infinite (negative : bool)
  | NaN.

(** The values a parsed file holds: a dictionary of strings for the
    key-value format, any JSON value for the JSON format ([json.load] gives
    a [dict], [list], [str], [int], [float], [bool] or [None]).  A [dict]
    is a finite map: the module never iterates over one, and Python
    compares dictionaries without regard to the order of insertion. *)
#[local] Unset Elimination Schemes.
Inductive pyval :=
  | PStr (s : string)
  | PNone
  | PBool (b : bool)
  | PInt (n : Z)
  | PFloat (x : pyfloat)
  | PList (l : list pyval)
  | PDict (m : gmap string pyval).
#[local] Set Elimination Schemes.

(** Python truth value, as [if not root] tests it. *)
Definition truthy (v : pyval) : bool :=
  match v with
  | PStr s => negb (Str.is_empty s)
  | PNone => false
  | PBool b => b
  | PInt n => negb (n =? 0)%Z
  | PFloat x => match x with Finite _ m _ => negb (m =? 0)%N | _ => true end
  | PList l => match l with [] => false | _ => true end
  | PDict m => negb (bool_decide (size m = 0))
  end.

(** [type(v).__name__], as error messages quote it. *)
Definition type_name (v : pyval) : string :=
  match v with
  | PStr _ => "str"
  | PNone => "NoneType"
  | PBool _ => "bool"
  | PInt _ => "int"
  | PFloat _ => "float"
  | PList _ => "list"
  | PDict _ => "dict"
  end.

(** [key in config] for a string [key]: a key of a dictionary, an element
    of a list (only a string equals a string), a substring of a string;
    the other values are no containers. *)
Definition contains_key (key : string) (config : pyval) : result bool :=
  match config with
  | PDict m => Ok (bool_decide (is_Some (m !! key)))
  | PList l =>
      Ok (existsb (λ v, match v with
                        | PStr s => bool_decide (s = key)
                        | _ => false
                        end) l)
  | PStr s => Ok (Str.contains key s)
  | _ =>
      Raise (TypeError ("argument of type '" +:+ type_name config
                        +:+ "' is not iterable"))
  end.

(** [config.get(key, None)] *)
Definition get_value (config : pyval) (key : string) : result pyval :=
  match config with
  | PDict m => Ok (default PNone (m !! key))
  | _ =>
      Raise (AttributeError ("'" +:+ type_name config
                             +:+ "' object has no attribute 'get'"))
  end.

Inductive ConfTypes := KEY_VALUE | JSON.

#[global] Instance ConfTypes_eq_dec : EqDecision ConfTypes.
Proof. solve_decision. Defined.

#[global] Instance ConfTypes_countable : Countable ConfTypes.
Proof.
  refine (inj_countable' (λ k, match k with KEY_VALUE => false | JSON => true end)
            (λ b, if b then JSON else KEY_VALUE) _).
  by intros [].
Defined.

(** [required_keys] missing from [config], in the order given. *)
Definition missing_keys {V} (required_keys : list string) (config : gmap string V)
    : list string :=
  filter (λ key, config !! key = None) required_keys.

(** [[key for key in required_keys if key not in config]] on a value of
    any type: the tests are made in order, and the first that raises ends
    the comprehension. *)
Fixpoint missing_from (required_keys : list string) (config : pyval)
    : result (list string) :=
  match required_keys with
  | [] => Ok []
  | key :: rest =>
      present ← contains_key key config;
      missing ← missing_from rest config;
      Ok (if present : bool then missing else key :: missing)
  end.

(** [if required_keys:] holds for a non-empty list. *)
Definition given_keys (required_keys : option (list string)) : list string :=
  default [] required_keys.

(** One turn of the loop over the lines in [load_config] (key-value format). *)
Definition load_config_step (config : gmap string pyval) (line : string)
    : result (gmap string pyval) :=
  let line := Str.strip line in
  if negb (Str.is_empty line) && negb (Str.startswith "#" line) then
    match Str.split1 "=" line with
    | [key; value] => Ok (<[Str.strip key := PStr (Str.strip value)]> config)
    | _ => Raise (ValueError "not enough values to unpack (expected 2, got 1)")
    end
  else Ok config.

Fixpoint load_config_lines (config : gmap string pyval) (lines : list string)
    : result (gmap string pyval) :=
  match lines with
  | [] => Ok config
  | line :: rest =>
      config ← load_config_step config line; load_config_lines config rest
  end.

Section decoders.

(** The decoders of the standard library, applied to the text of a file:
    [json.load], which gives the value of the document, whatever its top
    level is, and [csv.DictReader] with the sniffed delimiter. *)
Context (json_load : string → result pyval).
Context (csv_rows : string → result (list (list (string * string)))).

Definition load_json (w : world) (path : string)
    (required_keys : option (list string)) : result pyval :=
  if negb (path_exists w path)
  then Raise (FileNotFoundError ("JSON file not found: " +:+ path))
  else
    content ← read_text w path;
    config ← json_load (universal_newlines content);
    missing ← missing_from (given_keys required_keys) config;
    match missing with
    | [] => Ok config
    | _ =>
        Raise (KeyError ("Missing required JSON keys: " +:+ Str.join ", " missing))
    end.

Definition load_config (w : world) (path : string) (conf_type : ConfTypes)
    (required_keys : option (list string)) : result pyval :=
  if negb (path_exists w path)
  then Raise (FileNotFoundError ("Configuration file not found: " +:+ path))
  else
    match conf_type with
    | JSON => load_json w path required_keys
    | KEY_VALUE =>
        content ← read_text w path;
        config ← load_config_lines ∅ (file_lines content);
        match missing_keys (given_keys required_keys) config with
        | [] => Ok (PDict config)
        | missing =>
            Raise (KeyError ("Missing required configuration keys: "
                             +:+ Str.join ", " missing))
        end
    end.

Definition load_csv (w : world) (path : string)
    : result (list (list (string * string))) :=
  if negb (path_exists w path)
  then Raise (FileNotFoundError ("CSV file not found: " +:+ path))
  else content ← read_text w path; csv_rows content.

(** ** The tree indexer *)

(** [_depth(rel_path)] *)
Definition _depth (rel_path : string) : nat :=
  let rel_path := Str.strip_char posixpath.sep rel_path in
  if Str.is_empty rel_path then 1 else Str.count posixpath.sep rel_path + 1.

(** The order of the sort keys [(_depth(p), p)]: Python compares the tuples
    component by component, the strings by code point.  [list.sort] is
    modelled by [merge_sort] over this order (and over the string order for
    [filenames.sort()]). *)
Definition key_le (p q : string) : Prop :=
  _depth p < _depth q ∨ (_depth p = _depth q ∧ String.le p q).

#[global] Instance key_le_dec : RelDecision key_le.
Proof. intros p q. unfold key_le. apply _. Defined.

(** [index.setdefault(filename, []).append(rel_path)] *)
Definition index_append (filename rel_path : string)
    (index : gmap string (list string)) : gmap string (list string) :=
  <[filename := default [] (index !! filename) ++ [rel_path]]> index.

(** The body of the loop over [os.walk] in [tree_scan]. *)
Definition scan_dir (cwd root_abs : string) (index : gmap string (list string))
    (triple : string * list string * list string) : gmap string (list string) :=
  let '(dirpath, _, filenames) := triple in
  let filenames := merge_sort String.le filenames in
  let rel_dir := posixpath.relpath cwd dirpath root_abs in
  fold_left (λ index filename,
      let rel_path :=
        if bool_decide (rel_dir = ".") then filename
        else posixpath.normpath (posixpath.join rel_dir filename) in
      index_append filename rel_path index)
    filenames index.

Definition tree_scan (w : world) (root_abs : string)
    : result (gmap string (list string)) :=
  if Str.is_empty root_abs || negb (path_exists w root_abs)
  then Raise (ValueError "Invalid root path provided for tree scan.")
  else
    let index := fold_left (scan_dir (getcwd w) root_abs) (os_walk w root_abs) ∅ in
    Ok (merge_sort key_le <$> index).

(** ** The two class-level caches *)

Record cache_entry := CacheEntry {
  entry_mtime : Z;
  entry_config : pyval
}.

Record caches := Caches {
  _config_cache : gmap (string * ConfTypes) cache_entry;
  _tree_cache : gmap string (gmap string (list string))
}.

(** Class methods read and write the caches and may raise: a computation
    takes the caches and gives a result together with the caches as the
    call leaves them, also when it raises. *)
Definition M (A : Type) : Type := caches → result A * caches.

#[global] Instance M_ret : MRet M := λ A a c, (Ok a, c).
#[global] Instance M_bind : MBind M := λ A B k m c,
  match m c with
  | (Ok a, c') => k a c'
  | (Raise e, c') => (Raise e, c')
  end.

Definition raise {A} (e : exn) : M A := λ c, (Raise e, c).
Definition lift {A} (r : result A) : M A := λ c, (r, c).
Definition get_caches : M caches := λ c, (Ok c, c).
Definition put_caches (c : caches) : M unit := λ _, (Ok (), c).

Definition _get_config (w : world) (path : string) (conf_type : ConfTypes)
    (required_keys : option (list string)) : M pyval :=
  if negb (path_exists w path)
  then raise (FileNotFoundError ("Configuration file not found: " +:+ path))
  else
    let key := (path, conf_type) in
    let mtime := getmtime w path in
    cls ← get_caches;
    let reload : M pyval :=
      config ← lift (load_config w path conf_type required_keys);
      put_caches (Caches (<[key := CacheEntry mtime config]> (_config_cache cls))
                         (_tree_cache cls));;
      mret config in
    match _config_cache cls !! key with
    | Some entry =>
        if bool_decide (entry_mtime entry = mtime) then mret (entry_config entry)
        else reload
    | None => reload
    end.

Definition _get_tree (w : world) (root_abs : string)
    : M (gmap string (list string)) :=
  cls ← get_caches;
  match _tree_cache cls !! root_abs with
  | Some tree => mret tree
  | None =>
      tree ← lift (tree_scan w root_abs);
      put_caches (Caches (_config_cache cls) (<[root_abs := tree]> (_tree_cache cls)));;
      mret tree
  end.

Definition invalidate_caches (w : world) (config_path root : option string)
    : M unit :=
  cls ← get_caches;
  match config_path, root with
  | None, None => put_caches (Caches ∅ ∅)
  | _, _ =>
      let config_cache :=
        match config_path with
        | Some p => filter (λ kv, kv.1.1 ≠ p) (_config_cache cls)
        | None => _config_cache cls
        end in
      let tree_cache :=
        match root with
        | Some r => delete (posixpath.abspath (getcwd w) r) (_tree_cache cls)
        | None => _tree_cache cls
        end in
      put_caches (Caches config_cache tree_cache)
  end.

(** ** The reader facade *)

Record FileConfigReader := Facade {
  config : pyval;
  root : string;
  tree : gmap string (list string)
}.

(** [os.path.abspath(root)] on a configuration value: a string is needed. *)
Definition abspath_value (w : world) (v : pyval) : result string :=
  match v with
  | PStr s => Ok (posixpath.abspath (getcwd w) s)
  | _ =>
      Raise (TypeError ("expected str, bytes or os.PathLike object, not "
                        +:+ type_name v))
  end.

Definition __init__ (w : world) (config_path : string) (conf_type : ConfTypes)
    (required_keys : option (list string)) (force_refresh : bool)
    : M FileConfigReader :=
  (if force_refresh then invalidate_caches w (Some config_path) None else mret ());;
  config ← _get_config w config_path conf_type required_keys;
  root_value ← lift (get_value config "root");
  if truthy root_value then
    root ← lift (abspath_value w root_value);
    tree ← _get_tree w root;
    mret (Facade config root tree)
  else raise (KeyError "Missing 'root' in configuration.").

(** ** The lookup resolver *)

(** The effective scope of a lookup: the normalized join of [start] and
    the directory part of the normalized name. *)
Definition effective_start (name : string) (start : option string) : string :=
  let name_norm := posixpath.normpath name in
  let path_hint := posixpath.dirname name_norm in
  let start := default EmptyString start in
  if negb (Str.is_empty start) || negb (Str.is_empty path_hint)
  then posixpath.normpath (posixpath.join start path_hint)
  else EmptyString.

(** The test of the scan in [find]: [rp == prefix or
    rp.startswith(prefix + os.sep)]. *)
Definition under_prefix (prefix rp : string) : bool :=
  bool_decide (rp = prefix) || Str.startswith (prefix +:+ "/") rp.

(** The first part of [find], up to the choice of [rel_path]. *)
Definition find_rel_path (self : FileConfigReader) (name : string)
    (start : option string) : result string :=
  if Str.is_empty name then Raise (ValueError "name must be provided.")
  else
    let name_norm := posixpath.normpath name in
    let base := posixpath.basename name_norm in
    let effective_start := effective_start name start in
    match tree self !! base with
    | None | Some [] =>
        Raise (FileNotFoundError
                 ("'" +:+ name +:+ "' not found under root '" +:+ root self +:+ "'."))
    | Some ((first :: _) as candidates) =>
        if Str.is_empty effective_start || bool_decide (effective_start = ".")
        then Ok first
        else
          let prefix := Str.rstrip_char posixpath.sep effective_start in
          match List.find (under_prefix prefix) candidates with
          | Some rp => Ok rp
          | None =>
              Raise (FileNotFoundError
                       ("'" +:+ name +:+ "' not found under scope '"
                        +:+ effective_start +:+ "' (root '" +:+ root self +:+ "')."))
          end
    end.

(** What [find] returns, by decoder. *)
Inductive found :=
  | FoundJson (v : pyval)
  | FoundConf (v : pyval)
  | FoundSql (v : list string)
  | FoundCsv (v : list (list (string * string)))
  | FoundText (v : string).

(** The second part of [find]: the file at [rel_path] is read by the
    decoder of its extension. *)
Definition load_found (w : world) (self : FileConfigReader) (rel_path : string)
    (parse_known_types : bool) : result found :=
  let full_path := posixpath.join (root self) rel_path in
  let ext := Str.lower (posixpath.splitext_ext full_path) in
  if parse_known_types && bool_decide (ext = ".json") then
    content ← read_text w full_path;
    FoundJson <$> json_load (universal_newlines content)
  else if parse_known_types && bool_decide (ext = ".conf") then
    FoundConf <$> load_config w full_path KEY_VALUE None
  else if parse_known_types && bool_decide (ext = ".sql") then
    FoundSql <$> load_sql w full_path
  else if parse_known_types && bool_decide (ext = ".csv") then
    FoundCsv <$> load_csv w full_path
  else (FoundText ∘ universal_newlines) <$> read_text w full_path.

Definition find (w : world) (self : FileConfigReader) (name : string)
    (start : option string) (parse_known_types : bool) : result found :=
  rel_path ← find_rel_path self name start;
  load_found w self rel_path parse_known_types.

End decoders.

(** ** Outcomes named in the statements below *)

Section outcomes.

Context (json_load : string → result pyval).

(** The two outcomes of a lookup that has to read the file. *)
Definition reloaded (w : world) (path : string) (conf_type : ConfTypes)
    (required_keys : option (list string)) (cls : caches)
    : result pyval * caches :=
  match load_config json_load w path conf_type required_keys with
  | Ok config =>
      (Ok config,
       Caches (<[(path, conf_type) := CacheEntry (getmtime w path) config]>
                 (_config_cache cls))
              (_tree_cache cls))
  | Raise e => (Raise e, cls)
  end.

(** The tree index a facade gets for [root_abs]: fetched from the cache, or
    built by a scan that is then cached. *)
Definition built_or_fetched (w : world) (root_abs : string) (cls : caches)
    : result (gmap string (list string)) * caches :=
  match _tree_cache cls !! root_abs with
  | Some tree => (Ok tree, cls)
  | None =>
      match tree_scan w root_abs with
      | Ok tree =>
          (Ok tree,
           Caches (_config_cache cls) (<[root_abs := tree]> (_tree_cache cls)))
      | Raise e => (Raise e, cls)
      end
  end.

(** The caches as the constructor's [force_refresh] step leaves them. *)
Definition after_refresh (config_path : string) (force_refresh : bool)
    (cls : caches) : caches :=
  if force_refresh
  then Caches (filter (λ kv, kv.1.1 ≠ config_path) (_config_cache cls))
              (_tree_cache cls)
  else cls.

End outcomes.

(** The error kinds the specification declares, by the raise sites of the
    module that produce them; [None] for an exception of no declared kind. *)
Inductive error_kind :=
  | NotFound | InvalidRoot | MissingRequiredKey | InvalidArgument | UnsupportedFormat.

Definition declared_kind (e : exn) : option error_kind :=
  match e with
  | FileNotFoundError _ => Some NotFound
  | KeyError _ => Some MissingRequiredKey
  | ValueError msg =>
      if bool_decide (msg = "Invalid root path provided for tree scan.")
      then Some InvalidRoot
      else if bool_decide (msg = "name must be provided.") then Some InvalidArgument
      else if bool_decide (msg = "Unsupported configuration type")
      then Some UnsupportedFormat
      else None
  | _ => None
  end.

(** What Python raises when [key, value = ...] gets a one-element list. *)
Definition unpack_error : exn :=
  ValueError "not enough values to unpack (expected 2, got 1)".

(** A line of a key-value file that is not blank, is not a comment and
    holds no [=]. *)
Definition malformed_line (line : string) : Prop :=
  Str.strip line ≠ ""
  ∧ Str.startswith "#" (Str.strip line) = false
  ∧ Str.mem "=" (Str.strip line) = false.

(** The statements of a [.sql] file in the specification's words: the
    lines are stripped, blank lines and lines starting with [--] are
    skipped; a statement runs up to and including the next line that ends
    with [;] (the lines left at the end form a last statement); its lines
    are joined by one space. *)
Definition sql_lines (content : string) : list string :=
  filter (λ line, Str.startswith "--" line = false ∧ line ≠ "")
         (Str.strip <$> file_lines content).

Fixpoint sql_groups (lines : list string) : list (list string) :=
  match lines with
  | [] => []
  | line :: rest =>
      if Str.endswith_char ";" line then [line] :: sql_groups rest
      else match sql_groups rest with
           | [] => [[line]]
           | group :: groups => (line :: group) :: groups
           end
  end.

Definition sql_statements_spec (content : string) : list string :=
  Str.join " " <$> sql_groups (sql_lines content).

(** A non-empty string that neither starts nor ends with a character
    satisfying [p]: what [strip] leaves of a string it does not empty. *)
Definition stripped (p : ascii → bool) (s : string) : Prop :=
  (∃ a t, s = String a t ∧ p a = false) ∧ (∃ c, Str.last s = Some c ∧ p c = false).

(** What [load_sql] returns from the state its loop ends in. *)
Definition sql_finish (st : list string * list string) : list string :=
  match st.2 with
  | [] => st.1
  | _ => st.1 ++ [Str.strip (Str.join " " st.2)]
  end.

(** *** Legal snapshots and the files under a directory *)

(** An entry name as a POSIX file system has it: not empty, not [.] or
    [..], without a slash. *)
Definition legal_name (name : string) : bool :=
  negb (Str.is_empty name) && negb (bool_decide (name = "."))
  && negb (bool_decide (name = "..")) && negb (Str.mem posixpath.sep name).

Fixpoint legal_dir (d : dir) : bool :=
  match d with
  | Dir fs ds =>
      forallb legal_name fs
      && (fix legal_subdirs (l : list (string * dir)) : bool :=
            match l with
            | [] => true
            | (name, d') :: r => legal_name name && legal_dir d' && legal_subdirs r
            end) ds
  end.

Definition legal_node (n : node) : bool :=
  match n with
  | RegularFile _ _ => true
  | Directory _ d => legal_dir d
  end.

(** A snapshot with an absolute working directory and legal entry names. *)
Definition legal_world (w : world) : Prop :=
  posixpath.isabs (getcwd w) = true
  ∧ map_Forall (λ _ n, legal_node n = true) (at_path w).

(** The files under a directory: for each, the names of the directories
    that lead to it from the top, and its name. *)
Fixpoint files_under (d : dir) : list (list string * string) :=
  match d with
  | Dir fs ds =>
      ((λ f, ([], f)) <$> fs)
      ++ (fix files_under_subdirs (l : list (string * dir)) :=
            match l with
            | [] => []
            | (name, d') :: r =>
                ((λ x, (name :: x.1, x.2)) <$> files_under d')
                ++ files_under_subdirs r
            end) ds
  end.

(** The files below [root_abs] in a snapshot (none when it is not a
    directory). *)
Definition files_below (w : world) (root_abs : string)
    : list (list string * string) :=
  match at_path w !! root_abs with
  | Some (Directory _ d) => files_under d
  | _ => []
  end.

(** The path of a file relative to the top: the directory names and the
    file name, joined by slashes.  Its depth is the number of these names. *)
Definition rel_path_of (x : list string * string) : string :=
  Str.join "/" (x.1 ++ [x.2]).

Definition depth_of (x : list string * string) : nat := length x.1 + 1.

(** All relative paths below [root_abs] of the files named [filename]. *)
Definition paths_named (w : world) (root_abs filename : string) : list string :=
  rel_path_of <$> filter (λ x, x.2 = filename) (files_below w root_abs).

(** [os.walk] seen from the top: the directory names that lead to each
    directory instead of its path. *)
Fixpoint walk_comps (cs : list string) (d : dir) : list (list string * list string) :=
  match d with
  | Dir fs ds =>
      (cs, fs) ::
      (fix walk_subdirs (l : list (string * dir)) :=
         match l with
         | [] => []
         | (name, d') :: r => walk_comps (cs ++ [name]) d' ++ walk_subdirs r
         end) ds
  end.

(** A tree index that a scan of a legal snapshot has built: what the tree
    cache holds, and so what a facade holds. *)
Definition scanned_tree (tree : gmap string (list string)) : Prop :=
  ∃ w root_abs, legal_world w ∧ tree_scan w root_abs = Ok tree.

(** The scoped test in the specification's words: the relative path equals
    the scope or begins with the scope followed by a separator. *)
Definition in_scope (scope rp : string) : bool :=
  bool_decide (rp = scope) || Str.startswith (scope +:+ "/") rp.

(** *** Notions used in the proofs about paths and scans *)

(** The files a scan meets, in the order it meets them. *)
Definition scan_list (cs : list string) (d : dir) : list (list string * string) :=
  walk_comps cs d ≫= λ '(cs', fs), (λ f, (cs', f)) <$> merge_sort String.le fs.

Definition add_file (index : gmap string (list string)) (x : list string * string)
    : gmap string (list string) :=
  index_append x.2 (rel_path_of x) index.

(** The scoped lookup in the specification's words: without an entry for
    the base filename, the not-found-under-root error; else the first
    candidate, in the order of the list, that is in the scope; without
    such a candidate, the not-found-under-scope error. *)
Definition scoped_lookup (self : FileConfigReader) (name : string)
    (start : option string) : result string :=
  match tree self !! posixpath.basename (posixpath.normpath name) with
  | None =>
      Raise (FileNotFoundError
               ("'" +:+ name +:+ "' not found under root '" +:+ root self +:+ "'."))
  | Some paths =>
      match List.find (in_scope (effective_start name start)) paths with
      | Some rp => Ok rp
      | None =>
          Raise (FileNotFoundError
                   ("'" +:+ name +:+ "' not found under scope '"
                    +:+ effective_start name start
                    +:+ "' (root '" +:+ root self +:+ "')."))
      end
  end.

(** *** Notions used in the further properties *)

(** Every index in the tree cache was built by a scan of a legal snapshot. *)
Definition trees_scanned (cls : caches) : Prop :=
  map_Forall (λ _ tree, scanned_tree tree) (_tree_cache cls).

(** A line of a key-value file assigns [value] to [key]: stripped, it is
    not a comment and reads [key_text=value_text], the key text being what
    comes before the first [=]; [key] and [value] are the two texts
    stripped. *)
Definition assigns (line key value : string) : Prop :=
  ∃ key_text value_text,
    Str.strip line = key_text +:+ "=" +:+ value_text
    ∧ Str.count "=" key_text = 0
    ∧ Str.startswith "#" (Str.strip line) = false
    ∧ key = Str.strip key_text
    ∧ value = Str.strip value_text.

(** The text before the message of the missing-key error, by kind. *)
Definition missing_keys_prefix (conf_type : ConfTypes) : string :=
  match conf_type with
  | KEY_VALUE => "Missing required configuration keys: "
  | JSON => "Missing required JSON keys: "
  end.

(** What [key in config] tests, for the three containers a parsed file can
    be: a key of the dictionary, an element of the list, a substring of
    the string. *)
Inductive has_key : pyval → string → Prop :=
  | has_key_dict m key : is_Some (m !! key) → has_key (PDict m) key
  | has_key_list l key : PStr key ∈ l → has_key (PList l) key
  | has_key_str pre key post : has_key (PStr (pre +:+ key +:+ post)) key.

Definition container (config : pyval) : Prop :=
  match config with
  | PDict _ | PList _ | PStr _ => True
  | _ => False
  end.

(** The candidate [find] selects, as a function of the base filename and
    the effective scope alone. *)
Definition select (tree : gmap string (list string)) (base scope : string)
    : option string :=
  match tree !! base with
  | None | Some [] => None
  | Some ((first :: _) as candidates) =>
      if Str.is_empty scope || bool_decide (scope = ".") then Some first
      else List.find (under_prefix (Str.rstrip_char posixpath.sep scope)) candidates
  end.

(** ** Sample data for the closed instances *)

Definition nl : string := String "010" "".

Definition demo_dir : dir :=
  Dir ["x.txt"; "app.conf"]
      [("b", Dir ["x.txt"; "q.sql"] [("c", Dir ["x.txt"] [])]);
       ("a", Dir ["x.txt"] [])].

Definition boot_conf : string :=
  "# boot" +:+ nl +:+ "root = /srv/root" +:+ nl.

(** The text [{"root": 5}] and a configuration without a [root] key. *)
Definition root5_json : string :=
  "{" +:+ String "034" "root" +:+ String "034" ": 5}".
Definition noroot_conf : string := "name = demo" +:+ nl.

Definition demo_world : world :=
  World "/home/u"
    {[ "/srv/root" := Directory 5 demo_dir;
       "/etc/fcr.conf" := RegularFile 7 boot_conf;
       "/etc/fcr.json" := RegularFile 8 root5_json;
       "/etc/noroot.conf" := RegularFile 9 noroot_conf ]}.

(** The same paths after [/etc/fcr.conf] was rewritten without a change of
    its modification time. *)
Definition demo_world_rewritten : world :=
  World "/home/u"
    {[ "/srv/root" := Directory 5 demo_dir;
       "/etc/fcr.conf" := RegularFile 7 ("root = /elsewhere" +:+ nl) ]}.

(** A JSON decoder that reads the one document of the sample world. *)
Definition demo_json (content : string) : result pyval :=
  if bool_decide (content = root5_json) then Ok (PDict {[ "root" := PInt 5 ]})
  else if bool_decide (content = "[1]") then Ok (PList [PInt 1])
  else if bool_decide (content = "5") then Ok (PInt 5)
  else Raise (JSONDecodeError "Expecting value").

(** Two JSON documents whose top level is not an object. *)
Definition json_world : world :=
  World "/" {[ "/etc/list.json" := RegularFile 2 "[1]";
               "/etc/five.json" := RegularFile 2 "5" ]}.

Definition demo_csv (content : string) : result (list (list (string * string))) :=
  Ok [].

(** A key-value file with a line without [=], and the three-line [.sql]
    file of the specification. *)
Definition bad_conf : string := "root = /srv/root" +:+ nl +:+ "oops" +:+ nl.
Definition bad_world : world :=
  World "/" {[ "/etc/bad.conf" := RegularFile 3 bad_conf ]}.
Definition three_lines_sql : string :=
  "-- comment" +:+ nl +:+ "SELECT 1;" +:+ nl +:+ "INSERT INTO t VALUES (1);" +:+ nl.

(** The tree index of [/srv/root] and a facade that holds it. *)
Definition demo_tree : gmap string (list string) :=
  {[ "x.txt" := ["x.txt"; "a/x.txt"; "b/x.txt"; "b/c/x.txt"];
     "app.conf" := ["app.conf"];
     "q.sql" := ["b/q.sql"] ]}.

Definition demo_facade : FileConfigReader :=
  Facade (PDict {[ "root" := PStr "/srv/root" ]}) "/srv/root" demo_tree.

Definition no_caches : caches := Caches ∅ ∅.

(** The caches after a first, successful load of [/etc/fcr.conf]. *)
Definition warm_caches : caches :=
  (_get_config demo_json demo_world "/etc/fcr.conf" KEY_VALUE None no_caches).2.

(** The caches after a first construction from [/etc/fcr.conf]. *)
Definition full_caches : caches :=
  Caches {[ ("/etc/fcr.conf", KEY_VALUE)
            := CacheEntry 7 (PDict {[ "root" := PStr "/srv/root" ]}) ]}
         {[ "/srv/root" := demo_tree ]}.

(** A key-value file that assigns a key twice. *)
Definition twice_conf : string := "k = 1" +:+ nl +:+ "k = 2" +:+ nl.
Definition twice_world : world :=
  World "/" {[ "/etc/twice.conf" := RegularFile 4 twice_conf ]}.

(** The files of [demo_dir] under another root, every directory listing
    its entries in another order. *)
Definition shuffled_dir : dir :=
  Dir ["app.conf"; "x.txt"]
      [("a", Dir ["x.txt"] []);
       ("b", Dir ["q.sql"; "x.txt"] [("c", Dir ["x.txt"] [])])].
Definition shuffled_world : world :=
  World "/" {[ "/mnt/copy" := Directory 6 shuffled_dir ]}.

(** * Properties *)

(** ** The cache layer *)

Ltac unfold_M :=
  unfold mbind, mret, M_bind, M_ret, raise, lift, get_caches, put_caches in *;
  simpl in *.

Section cache_layer.

Context (json_load : string → result pyval).
Context (csv_rows : string → result (list (list (string * string)))).

Lemma _get_config_missing w path conf_type required_keys cls :
  path_exists w path = false →
  _get_config json_load w path conf_type required_keys cls =
    (Raise (FileNotFoundError ("Configuration file not found: " +:+ path)), cls).
Proof. intros He. unfold _get_config. by rewrite He. Qed.

Lemma _get_config_hit w path conf_type required_keys cls entry :
  path_exists w path = true →
  _config_cache cls !! (path, conf_type) = Some entry →
  entry_mtime entry = getmtime w path →
  _get_config json_load w path conf_type required_keys cls
  = (Ok (entry_config entry), cls).
Proof.
  intros He Hc Hm. unfold _get_config. rewrite He. unfold_M.
  rewrite Hc. by rewrite bool_decide_eq_true_2.
Qed.

Lemma _get_config_reload w path conf_type required_keys cls :
  path_exists w path = true →
  (_config_cache cls !! (path, conf_type) = None
   ∨ ∃ entry, _config_cache cls !! (path, conf_type) = Some entry
              ∧ entry_mtime entry ≠ getmtime w path) →
  _get_config json_load w path conf_type required_keys cls =
    reloaded json_load w path conf_type required_keys cls.
Proof.
  intros He Hc. unfold _get_config, reloaded. rewrite He. unfold_M.
  destruct Hc as [-> | (entry & -> & Hne)].
  - by destruct (load_config _ _ _ _ _).
  - rewrite bool_decide_eq_false_2 by done. by destruct (load_config _ _ _ _ _).
Qed.

(** A lookup either fails and leaves the caches alone, or gives a
    configuration. *)
Lemma _get_config_raise w path conf_type required_keys cls e cls' :
  _get_config json_load w path conf_type required_keys cls = (Raise e, cls') →
  cls' = cls.
Proof.
  unfold _get_config. destruct (path_exists w path); unfold_M; [|congruence].
  destruct (_config_cache cls !! _) as [entry|].
  - case_bool_decide; [congruence|].
    destruct (load_config _ _ _ _ _); congruence.
  - destruct (load_config _ _ _ _ _); congruence.
Qed.

Lemma _get_tree_spec w root_abs cls :
  _get_tree w root_abs cls = built_or_fetched w root_abs cls.
Proof.
  unfold _get_tree, built_or_fetched. unfold_M.
  destruct (_tree_cache cls !! root_abs); [done|].
  by destruct (tree_scan w root_abs).
Qed.


(** C4. A config-cache lookup for [(path, kind)]: when the path does not
    exist it fails with a file-not-found error whatever the cache holds;
    when no entry exists or the stored modification time differs from the
    file's, the file is parsed anew with the required-key check and, the
    parse succeeding, the entry is replaced by the new parse and the new
    time; when the stored time equals the file's, the cached parse is
    returned and nothing changes, whatever the file holds now. *)
Theorem config_cache_lookup w path conf_type required_keys cls :
  (path_exists w path = false →
     _get_config json_load w path conf_type required_keys cls
     = (Raise (FileNotFoundError ("Configuration file not found: " +:+ path)), cls))
  ∧ (path_exists w path = true →
     (_config_cache cls !! (path, conf_type) = None
      ∨ ∃ entry, _config_cache cls !! (path, conf_type) = Some entry
                 ∧ entry_mtime entry ≠ getmtime w path) →
     _get_config json_load w path conf_type required_keys cls
     = match load_config json_load w path conf_type required_keys with
       | Ok config =>
           (Ok config,
            Caches (<[(path, conf_type) := CacheEntry (getmtime w path) config]>
                      (_config_cache cls))
                   (_tree_cache cls))
       | Raise e => (Raise e, cls)
       end)
  ∧ (∀ entry content,
       at_path w !! path = Some (RegularFile (entry_mtime entry) content) →
       _config_cache cls !! (path, conf_type) = Some entry →
       _get_config json_load w path conf_type required_keys cls
       = (Ok (entry_config entry), cls)).
Proof.
  split_and!.
  - apply _get_config_missing.
  - apply _get_config_reload.
  - intros entry content Hf Hc. apply _get_config_hit; [|done|].
    + unfold path_exists. rewrite Hf. by apply bool_decide_eq_true_2.
    + unfold getmtime. by rewrite Hf.
Qed.

(** C9. On a cache hit (stored modification time equal to the file's) the
    cached mapping is returned without the required-key check: a required
    key for which a cold load of the same file raises the missing-key
    error raises nothing on the hit path. *)
Theorem cache_hit_skips_required_keys w path conf_type required_keys cls entry msg :
  path_exists w path = true →
  _config_cache cls !! (path, conf_type) = Some entry →
  entry_mtime entry = getmtime w path →
  load_config json_load w path conf_type required_keys = Raise (KeyError msg) →
  _get_config json_load w path conf_type required_keys cls
  = (Ok (entry_config entry), cls)
  ∧ _get_config json_load w path conf_type required_keys
      (Caches (delete (path, conf_type) (_config_cache cls)) (_tree_cache cls))
    = (Raise (KeyError msg),
       Caches (delete (path, conf_type) (_config_cache cls)) (_tree_cache cls)).
Proof.
  intros He Hc Hm Hl. split.
  - by apply _get_config_hit.
  - rewrite _get_config_reload; [|done|].
    + unfold reloaded. by rewrite Hl.
    + left. simpl. apply lookup_delete_eq.
Qed.

(** C6. [invalidate_caches] without arguments empties both caches; with a
    config path alone it removes the config entries with that path, of
    every kind, and leaves the other config entries and the tree cache as
    they were; with a root alone it removes the tree entry of the root's
    absolute form and leaves the other tree entries and the config cache
    as they were. *)
Theorem invalidate_caches_effect w cls :
  invalidate_caches w None None cls = (Ok (), Caches ∅ ∅)
  ∧ (∀ p, ∃ config_cache,
       invalidate_caches w (Some p) None cls
       = (Ok (), Caches config_cache (_tree_cache cls))
       ∧ ∀ q kind, config_cache !! (q, kind)
                   = if decide (q = p) then None else _config_cache cls !! (q, kind))
  ∧ (∀ r, ∃ tree_cache,
       invalidate_caches w None (Some r) cls
       = (Ok (), Caches (_config_cache cls) tree_cache)
       ∧ ∀ q, tree_cache !! q
              = if decide (q = posixpath.abspath (getcwd w) r) then None
                else _tree_cache cls !! q).
Proof.
  split_and!.
  - done.
  - intros p. exists (filter (λ kv, kv.1.1 ≠ p) (_config_cache cls)).
    split; [done|]. intros q kind.
    destruct (decide (q = p)) as [->|Hne].
    + apply map_lookup_filter_None. right. intros x _. simpl. by intros [].
    + destruct (_config_cache cls !! (q, kind)) as [x|] eqn:Hq.
      * by apply map_lookup_filter_Some.
      * apply map_lookup_filter_None. by left.
  - intros r.
    exists (delete (posixpath.abspath (getcwd w) r) (_tree_cache cls)).
    split; [done|]. intros q.
    destruct (decide (q = _)) as [->|Hne].
    + apply lookup_delete_eq.
    + by apply lookup_delete_ne.
Qed.

(** What the constructor does once the configuration is loaded. *)
Lemma __init__loaded w config_path conf_type required_keys force_refresh cls
    config cls1 :
  _get_config json_load w config_path conf_type required_keys
    (after_refresh config_path force_refresh cls) = (Ok config, cls1) →
  __init__ json_load w config_path conf_type required_keys force_refresh cls
  = match get_value config "root" with
    | Ok root_value =>
        if truthy root_value then
          match abspath_value w root_value with
          | Ok root =>
              match built_or_fetched w root cls1 with
              | (Ok tree, cls2) => (Ok (Facade config root tree), cls2)
              | (Raise e, cls2) => (Raise e, cls2)
              end
          | Raise e => (Raise e, cls1)
          end
        else (Raise (KeyError "Missing 'root' in configuration."), cls1)
    | Raise e => (Raise e, cls1)
    end.
Proof.
  intros Hc. unfold __init__.
  assert (∀ A (k : unit → M A),
    mbind k (if force_refresh then invalidate_caches w (Some config_path) None
             else mret ()) cls
    = k () (after_refresh config_path force_refresh cls)) as ->.
  { intros A k. by destruct force_refresh. }
  unfold mbind at 1, M_bind at 1. rewrite Hc.
  unfold mbind at 1, M_bind at 1, lift.
  destruct (get_value config "root") as [v|e]; [|done].
  destruct (truthy v); [|done].
  unfold mbind at 1, M_bind at 1, lift.
  destruct (abspath_value w v) as [r|e]; [|done].
  unfold mbind at 1, M_bind at 1. rewrite _get_tree_spec.
  by destruct (built_or_fetched w r cls1) as [[t|e] c2].
Qed.

Lemma __init__not_loaded w config_path conf_type required_keys force_refresh cls
    e cls1 :
  _get_config json_load w config_path conf_type required_keys
    (after_refresh config_path force_refresh cls) = (Raise e, cls1) →
  __init__ json_load w config_path conf_type required_keys force_refresh cls
  = (Raise e, after_refresh config_path force_refresh cls).
Proof.
  intros Hc. rewrite (_get_config_raise _ _ _ _ _ _ _ Hc) in Hc.
  unfold __init__. destruct force_refresh; unfold_M; by rewrite Hc.
Qed.

(** A successful lookup leaves the caches alone (a hit) or writes the one
    entry of the parse it returns. *)
Lemma _get_config_ok w path conf_type required_keys cls config cls' :
  _get_config json_load w path conf_type required_keys cls = (Ok config, cls') →
  cls' = cls
  ∨ (load_config json_load w path conf_type required_keys = Ok config
     ∧ cls' = Caches (<[(path, conf_type) := CacheEntry (getmtime w path) config]>
                        (_config_cache cls))
                     (_tree_cache cls)).
Proof.
  unfold _get_config. destruct (path_exists w path); unfold_M; [|congruence].
  destruct (_config_cache cls !! _) as [entry|].
  - case_bool_decide; [left; congruence|].
    destruct (load_config _ _ _ _ _) eqn:E; [|congruence].
    intros [= <- <-]. by right.
  - destruct (load_config _ _ _ _ _) eqn:E; [|congruence].
    intros [= <- <-]. by right.
Qed.


(** C7, as the code has it. Once the bootstrap configuration is loaded
    and is a dictionary, the constructor fails with the missing-root error
    when the [root] key is absent or its value is empty (false in Python's
    sense); when the value is a non-empty string it resolves it to an
    absolute path and fetches the tree index of that root from the cache,
    or builds it by a scan and caches it; a non-empty value of another
    type makes the path resolution raise a type error.  A loaded value
    that is no dictionary (a JSON document whose top level is no object)
    has no [get], and the constructor raises an attribute error. *)
Theorem constructor_root w config_path conf_type required_keys force_refresh cls
    config cls1 :
  _get_config json_load w config_path conf_type required_keys
    (after_refresh config_path force_refresh cls) = (Ok config, cls1) →
  (∀ m, config = PDict m →
     ((m !! "root" = None
       ∨ ∃ v, m !! "root" = Some v ∧ truthy v = false) →
      __init__ json_load w config_path conf_type required_keys force_refresh cls
      = (Raise (KeyError "Missing 'root' in configuration."), cls1))
     ∧ (∀ s, m !! "root" = Some (PStr s) → s ≠ "" →
        let root := posixpath.abspath (getcwd w) s in
        __init__ json_load w config_path conf_type required_keys force_refresh cls
        = match _tree_cache cls1 !! root with
          | Some tree => (Ok (Facade config root tree), cls1)
          | None =>
              match tree_scan w root with
              | Ok tree =>
                  (Ok (Facade config root tree),
                   Caches (_config_cache cls1)
                          (<[root := tree]> (_tree_cache cls1)))
              | Raise e => (Raise e, cls1)
              end
          end)
     ∧ (∀ v, m !! "root" = Some v → truthy v = true → (∀ s, v ≠ PStr s) →
        __init__ json_load w config_path conf_type required_keys force_refresh cls
        = (Raise (TypeError ("expected str, bytes or os.PathLike object, not "
                             +:+ type_name v)), cls1)))
  ∧ ((∀ m, config ≠ PDict m) →
     __init__ json_load w config_path conf_type required_keys force_refresh cls
     = (Raise (AttributeError ("'" +:+ type_name config
                               +:+ "' object has no attribute 'get'")), cls1)).
Proof.
  intros Hc. rewrite (__init__loaded _ _ _ _ _ _ _ _ Hc). split.
  - intros m ->. unfold get_value. split_and!.
    + intros [-> | (v & -> & Hv)]; simpl; [done|]. by rewrite Hv.
    + intros s -> Hs. simpl.
      destruct s as [|a s]; [done|]. simpl. unfold built_or_fetched.
      destruct (_tree_cache cls1 !! _); [done|].
      by destruct (tree_scan w _).
    + intros v -> Htv Hv. simpl. rewrite Htv.
      destruct v; try done. by destruct (Hv s).
  - intros Hm. destruct config; try done. by destruct (Hm m).
Qed.

End cache_layer.

(** *** Closed instances for the cache layer *)

Lemma config_cache_lookup_witness :
  (path_exists demo_world "/nowhere" = false
   ∧ _get_config demo_json demo_world "/nowhere" KEY_VALUE None warm_caches
     = (Raise (FileNotFoundError "Configuration file not found: /nowhere"),
        warm_caches))
  ∧ (path_exists demo_world "/etc/fcr.conf" = true
     ∧ _config_cache no_caches !! ("/etc/fcr.conf", KEY_VALUE) = None
     ∧ _get_config demo_json demo_world "/etc/fcr.conf" KEY_VALUE None no_caches
       = (Ok (PDict {[ "root" := PStr "/srv/root" ]}),
          Caches {[ ("/etc/fcr.conf", KEY_VALUE)
                    := CacheEntry 7 (PDict {[ "root" := PStr "/srv/root" ]}) ]} ∅))
  ∧ (at_path demo_world_rewritten !! "/etc/fcr.conf"
     = Some (RegularFile 7 ("root = /elsewhere" +:+ nl))
     ∧ _config_cache warm_caches !! ("/etc/fcr.conf", KEY_VALUE)
       = Some (CacheEntry 7 (PDict {[ "root" := PStr "/srv/root" ]}))
     ∧ _get_config demo_json demo_world_rewritten "/etc/fcr.conf" KEY_VALUE None
         warm_caches
       = (Ok (PDict {[ "root" := PStr "/srv/root" ]}), warm_caches)).
Proof.
  destruct (config_cache_lookup demo_json demo_world "/nowhere" KEY_VALUE None
              warm_caches) as (H1 & _ & _).
  destruct (config_cache_lookup demo_json demo_world "/etc/fcr.conf" KEY_VALUE None
              no_caches) as (_ & H2 & _).
  destruct (config_cache_lookup demo_json demo_world_rewritten "/etc/fcr.conf"
              KEY_VALUE None warm_caches) as (_ & _ & H3).
  split_and!.
  - vm_compute; reflexivity.
  - apply H1. vm_compute; reflexivity.
  - vm_compute; reflexivity.
  - vm_compute; reflexivity.
  - rewrite H2.
    + vm_compute; reflexivity.
    + vm_compute; reflexivity.
    + left. vm_compute; reflexivity.
  - vm_compute; reflexivity.
  - vm_compute; reflexivity.
  - rewrite (H3 (CacheEntry 7 (PDict {[ "root" := PStr "/srv/root" ]}))
                ("root = /elsewhere" +:+ nl)).
    + reflexivity.
    + vm_compute; reflexivity.
    + vm_compute; reflexivity.
Defined.

Lemma cache_hit_skips_required_keys_witness :
  path_exists demo_world "/etc/fcr.conf" = true
  ∧ _config_cache warm_caches !! ("/etc/fcr.conf", KEY_VALUE)
    = Some (CacheEntry 7 (PDict {[ "root" := PStr "/srv/root" ]}))
  ∧ load_config demo_json demo_world "/etc/fcr.conf" KEY_VALUE (Some ["owner"])
    = Raise (KeyError "Missing required configuration keys: owner")
  ∧ _get_config demo_json demo_world "/etc/fcr.conf" KEY_VALUE (Some ["owner"])
      warm_caches
    = (Ok (PDict {[ "root" := PStr "/srv/root" ]}), warm_caches)
  ∧ _get_config demo_json demo_world "/etc/fcr.conf" KEY_VALUE (Some ["owner"])
      no_caches
    = (Raise (KeyError "Missing required configuration keys: owner"), no_caches).
Proof.
  destruct (cache_hit_skips_required_keys demo_json demo_world "/etc/fcr.conf"
              KEY_VALUE (Some ["owner"]) warm_caches
              (CacheEntry 7 (PDict {[ "root" := PStr "/srv/root" ]}))
              "Missing required configuration keys: owner") as [H1 H2].
  - vm_compute; reflexivity.
  - vm_compute; reflexivity.
  - vm_compute; reflexivity.
  - vm_compute; reflexivity.
  - split_and!.
    + vm_compute; reflexivity.
    + vm_compute; reflexivity.
    + vm_compute; reflexivity.
    + rewrite H1. reflexivity.
    + etrans; [|etrans; [exact H2|]]; vm_compute; reflexivity.
Defined.



(** C7 fails for a root value that is not a string: the JSON document
    [{"root": 5}] has a [root] key with a non-empty value, and the
    constructor raises a type error in the path resolution. *)
Lemma constructor_root_not_a_string :
  let loaded :=
    _get_config demo_json demo_world "/etc/fcr.json" JSON None no_caches in
  loaded.1 = Ok (PDict {[ "root" := PInt 5 ]})
  ∧ truthy (PInt 5) = true
  ∧ __init__ demo_json demo_world "/etc/fcr.json" JSON None false no_caches
    = (Raise (TypeError "expected str, bytes or os.PathLike object, not int"),
       loaded.2).
Proof. split_and!; vm_compute; reflexivity. Qed.

Lemma constructor_root_witness :
  (_get_config demo_json demo_world "/etc/noroot.conf" KEY_VALUE None no_caches).1
  = Ok (PDict {[ "name" := PStr "demo" ]})
  ∧ (__init__ demo_json demo_world "/etc/noroot.conf" KEY_VALUE None false
       no_caches).1
    = Raise (KeyError "Missing 'root' in configuration.")
  ∧ (_get_config demo_json demo_world "/etc/fcr.conf" KEY_VALUE None no_caches).1
    = Ok (PDict {[ "root" := PStr "/srv/root" ]})
  ∧ root <$> (__init__ demo_json demo_world "/etc/fcr.conf" KEY_VALUE None false
                no_caches).1
    = Ok "/srv/root"
  ∧ (_get_config demo_json json_world "/etc/list.json" JSON None no_caches).1
    = Ok (PList [PInt 1])
  ∧ (__init__ demo_json json_world "/etc/list.json" JSON None false no_caches).1
    = Raise (AttributeError "'list' object has no attribute 'get'").
Proof.
  destruct (constructor_root demo_json demo_world "/etc/noroot.conf" KEY_VALUE None
              false no_caches (PDict {[ "name" := PStr "demo" ]})
              (_get_config demo_json demo_world "/etc/noroot.conf" KEY_VALUE None
                 no_caches).2) as [H1 _]; [vm_compute; reflexivity|].
  destruct (H1 _ eq_refl) as (H1' & _ & _).
  destruct (constructor_root demo_json demo_world "/etc/fcr.conf" KEY_VALUE None
              false no_caches (PDict {[ "root" := PStr "/srv/root" ]})
              (_get_config demo_json demo_world "/etc/fcr.conf" KEY_VALUE None
                 no_caches).2) as [H2 _]; [vm_compute; reflexivity|].
  destruct (H2 _ eq_refl) as (_ & H2' & _).
  destruct (constructor_root demo_json json_world "/etc/list.json" JSON None
              false no_caches (PList [PInt 1])
              (_get_config demo_json json_world "/etc/list.json" JSON None
                 no_caches).2) as [_ H3]; [vm_compute; reflexivity|].
  split_and!.
  - vm_compute; reflexivity.
  - rewrite H1'; [reflexivity|]. left. vm_compute; reflexivity.
  - vm_compute; reflexivity.
  - rewrite (H2' "/srv/root"); [vm_compute; reflexivity| vm_compute; reflexivity |done].
  - vm_compute; reflexivity.
  - rewrite H3; [reflexivity|]. intros m Hm. discriminate Hm.
Defined.

(** ** The format decoders *)

Section key_value.

Context (json_load : string → result pyval).

Lemma split1_no_sep c s : Str.mem c s = false → Str.split1 c s = [s].
Proof.
  unfold Str.mem. rewrite negb_false_iff, Nat.eqb_eq.
  induction s as [|a s IH]; simpl; [done|].
  case_bool_decide; [done|]. intros Hc. by rewrite IH.
Qed.

Lemma load_config_step_malformed config line :
  malformed_line line → load_config_step config line = Raise unpack_error.
Proof.
  intros (Hne & Hc & He). unfold load_config_step.
  destruct (Str.strip line) as [|a l] eqn:E; [done|].
  simpl Str.is_empty. rewrite Hc. simpl negb. simpl andb.
  by rewrite (split1_no_sep _ _ He).
Qed.

Lemma load_config_step_cases config line :
  (∃ config', load_config_step config line = Ok config')
  ∨ load_config_step config line = Raise unpack_error.
Proof.
  unfold load_config_step.
  destruct (_ && _); [|by left; eexists].
  destruct (Str.split1 _ _) as [|k [|v [|]]]; by eauto.
Qed.

Lemma load_config_lines_malformed config lines :
  Exists malformed_line lines →
  load_config_lines config lines = Raise unpack_error.
Proof.
  intros H. revert config.
  induction lines as [|line lines IH]; intros config; [by inversion H|].
  simpl. destruct (load_config_step_cases config line) as [[config' E]|E];
    rewrite E; [|done].
  simpl. apply Exists_cons in H as [Hm|Hm].
  - rewrite (load_config_step_malformed config line Hm) in E. done.
  - by apply IH.
Qed.

(** C10. A key-value file with a line that is not blank, does not start
    with [#] and holds no [=] makes [load_config] raise the ValueError of
    the failed tuple unpacking, which is none of the error kinds the
    specification declares; the line is neither skipped nor reported by a
    parse error of its own. *)
Theorem load_config_malformed_line w path mtime content required_keys :
  at_path w !! path = Some (RegularFile mtime content) →
  Exists malformed_line (file_lines content) →
  load_config json_load w path KEY_VALUE required_keys
  = Raise (ValueError "not enough values to unpack (expected 2, got 1)")
  ∧ declared_kind (ValueError "not enough values to unpack (expected 2, got 1)")
    = None.
Proof.
  intros Hf Hl. split; [|done].
  unfold load_config, path_exists, read_text. rewrite Hf.
  rewrite bool_decide_eq_true_2 by done. simpl.
  by rewrite (load_config_lines_malformed _ _ Hl).
Qed.

End key_value.

Lemma load_config_malformed_line_witness :
  at_path bad_world !! "/etc/bad.conf" = Some (RegularFile 3 bad_conf)
  ∧ Exists malformed_line (file_lines bad_conf)
  ∧ load_config demo_json bad_world "/etc/bad.conf" KEY_VALUE None
    = Raise (ValueError "not enough values to unpack (expected 2, got 1)").
Proof.
  assert (Exists malformed_line (file_lines bad_conf)) as Hbad.
  { apply Exists_cons_tl, Exists_cons_hd. by vm_compute. }
  split_and!; [vm_compute; reflexivity|done|].
  apply (load_config_malformed_line demo_json bad_world "/etc/bad.conf" 3%Z
           bad_conf None); [vm_compute; reflexivity|done].
Defined.

(** *** The SQL decoder *)

Section strip_facts.

Context (p : ascii → bool).

Lemma last_app s t : t ≠ "" → Str.last (s +:+ t) = Str.last t.
Proof.
  intros Ht. induction s as [|a s IH]; [done|].
  simpl. rewrite IH. by destruct (s +:+ t) eqn:E; [destruct s, t|].
Qed.

Lemma rstrip_keep s c :
  Str.last s = Some c → p c = false → Str.rstrip_with p s = s.
Proof.
  intros Hl Hc. induction s as [|a s IH]; [done|].
  simpl in *. destruct s as [|b s].
  - simplify_eq. simpl. by rewrite Hc.
  - rewrite IH by done. done.
Qed.

Lemma last_rstrip s c : Str.last (Str.rstrip_with p s) = Some c → p c = false.
Proof.
  induction s as [|a s IH]; [done|]. simpl.
  destruct (Str.rstrip_with p s) as [|b r] eqn:E; simpl.
  - destruct (p a) eqn:Ea; simpl; congruence.
  - done.
Qed.

Lemma head_lstrip s a t : Str.lstrip_with p s = String a t → p a = false.
Proof.
  induction s as [|b s IH]; [done|]. simpl.
  destruct (p b) eqn:Eb; [done|]. congruence.
Qed.

Lemma last_lstrip s : Str.lstrip_with p s ≠ "" →
  Str.last (Str.lstrip_with p s) = Str.last s.
Proof.
  induction s as [|b s IH]; [done|]. simpl.
  destruct (p b); [|done]. intros Hne. rewrite IH by done.
  by destruct s.
Qed.

Lemma strip_stripped s : Str.strip_with p s ≠ "" → stripped p (Str.strip_with p s).
Proof.
  unfold Str.strip_with. intros Hne. split.
  - destruct (Str.lstrip_with p _) as [|a t] eqn:E; [done|].
    exists a, t. split; [done|]. by eapply head_lstrip.
  - rewrite last_lstrip by done.
    destruct (Str.last (Str.rstrip_with p s)) as [c|] eqn:E.
    + exists c. split; [done|]. by eapply last_rstrip.
    + destruct (Str.rstrip_with p s) as [|b r]; [done|].
      exfalso. clear -E. revert b E.
      induction r as [|b' r IH]; intros b; simpl; [done|]. apply IH.
Qed.

Lemma stripped_fixed s : stripped p s → Str.strip_with p s = s.
Proof.
  intros [(a & t & -> & Ha) (c & Hl & Hc)]. unfold Str.strip_with.
  rewrite (rstrip_keep _ c) by done. simpl. by rewrite Ha.
Qed.

Lemma append_cons a (s t : string) : String a s +:+ t = String a (s +:+ t).
Proof. done. Qed.

Lemma append_assoc (s t u : string) : (s +:+ t) +:+ u = s +:+ t +:+ u.
Proof. induction s as [|a s IH]; [done|]. rewrite !append_cons. by rewrite IH. Qed.

Lemma join_cons sep x y r :
  Str.join sep (x :: y :: r) = x +:+ sep +:+ Str.join sep (y :: r).
Proof. done. Qed.

Lemma stripped_join sep g :
  g ≠ [] → Forall (stripped p) g → stripped p (Str.join sep g).
Proof.
  intros Hg Hall. induction Hall as [|x r Hx Hr IH]; [done|].
  destruct r as [|y r]; [done|].
  specialize (IH ltac:(done)). rewrite join_cons.
  remember (Str.join sep (y :: r)) as J eqn:EJ. clear EJ.
  destruct Hx as [(a & t & -> & Ha) _]. destruct IH as [(b & u & -> & _) Hl].
  split.
  - by exists a, (t +:+ sep +:+ String b u).
  - rewrite <- append_assoc. by rewrite last_app.
Qed.

End strip_facts.

Lemma sql_groups_open current :
  Forall (λ l, Str.endswith_char ";" l = false) current → current ≠ [] →
  sql_groups current = [current].
Proof.
  intros Hall. induction Hall as [|l r Hl Hr IH]; [done|]. intros _.
  simpl. rewrite Hl. destruct r as [|l' r]; [done|]. by rewrite IH.
Qed.

Lemma sql_groups_close current l rest :
  Forall (λ l, Str.endswith_char ";" l = false) current →
  Str.endswith_char ";" l = true →
  sql_groups (current ++ l :: rest) = (current ++ [l]) :: sql_groups rest.
Proof.
  intros Hall Hl. induction Hall as [|c r Hc Hr IH]; simpl.
  - by rewrite Hl.
  - by rewrite Hc, IH.
Qed.

Lemma sql_commands_finish content :
  sql_commands content
  = sql_finish (fold_left load_sql_step (file_lines content) ([], [])).
Proof.
  unfold sql_commands, sql_finish.
  by destruct (fold_left _ _ _) as [commands [|l current]].
Qed.

Lemma strip_join_fixed g :
  g ≠ [] → Forall (stripped Str.is_space) g →
  Str.strip (Str.join " " g) = Str.join " " g.
Proof. intros Hg Hall. by apply stripped_fixed, stripped_join. Qed.

(** The loop of [load_sql], started in any state whose open statement
    holds stripped lines without a closing [;]. *)
Lemma load_sql_loop lines commands current :
  Forall (λ l, stripped Str.is_space l ∧ Str.endswith_char ";" l = false) current →
  sql_finish (fold_left load_sql_step lines (commands, current))
  = commands
    ++ (Str.join " "
          <$> sql_groups
                (current
                 ++ filter (λ line, Str.startswith "--" line = false ∧ line ≠ "")
                      (Str.strip <$> lines))).
Proof.
  revert commands current.
  induction lines as [|line lines IH]; intros commands current Hcur.
  - rewrite fmap_nil, filter_nil, app_nil_r.
    cbv beta iota delta [sql_finish fst snd fold_left].
    destruct current as [|l current]; [by rewrite app_nil_r|].
    rewrite sql_groups_open; [|by eapply Forall_impl; [done|intros ? []]|done].
    rewrite strip_join_fixed; [done|done|].
    by eapply Forall_impl; [done|intros ? []].
  - rewrite fmap_cons, filter_cons. cbn [fold_left].
    unfold load_sql_step at 2.
    destruct (Str.startswith "--" (Str.strip line)) eqn:Ec; cbn [orb].
    { rewrite decide_False by (intros [? _]; done). by apply IH. }
    destruct (Str.strip line) as [|a l] eqn:El; cbn [Str.is_empty].
    { rewrite decide_False by (intros [_ ?]; done). by apply IH. }
    rewrite decide_True by done.
    assert (stripped Str.is_space (String a l)) as Hl.
    { pose proof (strip_stripped Str.is_space line) as Hs.
      fold (Str.strip line) in Hs. rewrite El in Hs. by apply Hs. }
    destruct (Str.endswith_char ";" (String a l)) eqn:Ee.
    + rewrite IH by done. rewrite app_nil_l.
      rewrite sql_groups_close; [|by eapply Forall_impl; [done|intros ? []]|done].
      rewrite fmap_cons, <- app_assoc.
      rewrite strip_join_fixed; [done|by destruct current|].
      apply Forall_app. split; [|by apply Forall_singleton].
      by eapply Forall_impl; [done|intros ? []].
    + rewrite IH.
      * by rewrite <- app_assoc.
      * apply Forall_app. split; [done|]. by apply Forall_singleton.
Qed.

(** C8. The statements [load_sql] returns are those of the specification:
    the stripped lines that are neither blank nor start with [--], cut
    after each line that ends with [;], the lines of a statement joined by
    one space.  The three-line file of the specification decodes to its
    two statements. *)
Theorem load_sql_statements :
  (∀ content, sql_commands content = sql_statements_spec content)
  ∧ (∀ w path mtime content,
       at_path w !! path = Some (RegularFile mtime content) →
       load_sql w path = Ok (sql_statements_spec content))
  ∧ three_lines_sql
    = "-- comment" +:+ String "010" "SELECT 1;"
      +:+ String "010" "INSERT INTO t VALUES (1);" +:+ String "010" ""
  ∧ sql_commands three_lines_sql = ["SELECT 1;"; "INSERT INTO t VALUES (1);"].
Proof.
  assert (∀ content, sql_commands content = sql_statements_spec content) as Hspec.
  { intros content. rewrite sql_commands_finish, load_sql_loop by done.
    done. }
  split_and!; [done| |done|by vm_compute].
  intros w path mtime content Hf. unfold load_sql, path_exists, read_text.
  rewrite Hf, bool_decide_eq_true_2 by done. simpl. by rewrite Hspec.
Qed.

Lemma load_sql_statements_witness :
  at_path (World "/" {[ "/db/init.sql" := RegularFile 1 three_lines_sql ]})
    !! "/db/init.sql" = Some (RegularFile 1 three_lines_sql)
  ∧ load_sql (World "/" {[ "/db/init.sql" := RegularFile 1 three_lines_sql ]})
      "/db/init.sql"
    = Ok ["SELECT 1;"; "INSERT INTO t VALUES (1);"].
Proof.
  destruct load_sql_statements as (_ & H & _ & _).
  split; [by vm_compute|].
  rewrite (H _ "/db/init.sql" 1%Z three_lines_sql); by vm_compute.
Defined.

(** ** Paths *)

(** What [os.path.join(a, name)] appends to a non-empty [a]. *)
Definition joiner (a name : string) : string :=
  if Str.endswith_char "/" a then name else "/" +:+ name.

(** The argument [abspath] hands to [normpath]. *)
Definition absolutize (cwd path : string) : string :=
  if posixpath.isabs path then path else posixpath.join cwd path.

(** The components [normpath] keeps. *)
Definition norm_comps (path : string) : list string :=
  fold_left (posixpath.norm_step (posixpath.initial_slashes path))
    (Str.split "/" path) [].

(** The path [os.walk] gives the directory reached from [top] through the
    directories [cs]. *)
Definition dirpath_of (top : string) (cs : list string) : string :=
  fold_left posixpath.join cs top.

Section string_facts.

Lemma append_nil_r (s : string) : s +:+ "" = s.
Proof. induction s as [|a s IH]; [done|]. by rewrite append_cons, IH. Qed.

Lemma count_app c (s t : string) : Str.count c (s +:+ t) = Str.count c s + Str.count c t.
Proof.
  induction s as [|a s IH]; [done|]. rewrite append_cons. simpl. rewrite IH. lia.
Qed.

Lemma split_nonempty c s : Str.split c s ≠ [].
Proof.
  destruct s as [|a s]; [done|]. simpl.
  case_bool_decide; [done|]. by destruct (Str.split c s).
Qed.

Lemma split_app_sep c s t :
  Str.split c (s +:+ String c t) = Str.split c s ++ Str.split c t.
Proof.
  induction s as [|a s IH].
  - simpl. change ("" +:+ String c t) with (String c t). simpl.
    by rewrite bool_decide_eq_true_2.
  - rewrite append_cons. simpl. rewrite IH.
    case_bool_decide; [done|].
    pose proof (split_nonempty c s). by destruct (Str.split c s).
Qed.

Lemma split_none c s : Str.count c s = 0 → Str.split c s = [s].
Proof.
  induction s as [|a s IH]; [done|]. simpl.
  case_bool_decide; [done|]. intros Hc. by rewrite IH.
Qed.

Lemma split_pieces c s : Forall (λ x, Str.count c x = 0) (Str.split c s).
Proof.
  induction s as [|a s IH]; simpl; [by repeat constructor|].
  case_bool_decide as Ha; [by constructor|].
  destruct (Str.split c s) as [|h r]; [by repeat constructor; simpl; rewrite bool_decide_eq_false_2|].
  apply Forall_cons in IH as [Hh Hr]. constructor; [|done].
  simpl. by rewrite bool_decide_eq_false_2.
Qed.

Lemma join_snoc sep l x : l ≠ [] → Str.join sep (l ++ [x]) = Str.join sep l +:+ sep +:+ x.
Proof.
  induction l as [|a l IH]; [done|]. intros _.
  destruct l as [|b l]; [done|].
  change ((a :: b :: l) ++ [x]) with (a :: (b :: l) ++ [x]).
  change (Str.join sep (a :: (b :: l) ++ [x]))
    with (a +:+ sep +:+ Str.join sep ((b :: l) ++ [x])).
  rewrite IH by done. rewrite join_cons. by rewrite !append_assoc.
Qed.

Lemma split_join l :
  l ≠ [] → Forall (λ x, Str.count "/" x = 0) l → Str.split "/" (Str.join "/" l) = l.
Proof.
  intros Hl Hall. induction Hall as [|x r Hx Hr IH]; [done|].
  destruct r as [|y r]; [by apply split_none|].
  rewrite join_cons. change (x +:+ "/" +:+ Str.join "/" (y :: r))
    with (x +:+ String "/" (Str.join "/" (y :: r))).
  rewrite split_app_sep, IH by done. by rewrite split_none.
Qed.

Lemma count_join l :
  Forall (λ x, Str.count "/" x = 0) l → Str.count "/" (Str.join "/" l) = length l - 1.
Proof.
  intros Hall. induction Hall as [|x r Hx Hr IH]; [done|].
  destruct r as [|y r]; [simpl; lia|].
  rewrite join_cons, !count_app, IH, Hx. simpl. lia.
Qed.

Lemma legal_name_spec name :
  legal_name name = true
  ↔ name ≠ "" ∧ name ≠ "." ∧ name ≠ ".." ∧ Str.count "/" name = 0.
Proof.
  unfold legal_name, Str.mem.
  rewrite !andb_true_iff, !negb_true_iff, negb_false_iff, !bool_decide_eq_false,
    Nat.eqb_eq.
  split.
  - intros [[[H1 H2] H3] H4]. split_and!; try done. by intros ->.
  - intros (H1 & H2 & H3 & H4). split_and!; try done. by destruct name.
Qed.

Lemma noslash_last name :
  name ≠ "" → Str.count "/" name = 0 →
  ∃ c, Str.last name = Some c ∧ Str.is_char "/" c = false.
Proof.
  induction name as [|a t IH]; [done|]. intros _ Hc. simpl in Hc.
  case_bool_decide as Ha; [done|]. destruct t as [|b t].
  - exists a. split; [done|]. unfold Str.is_char. by rewrite bool_decide_eq_false_2.
  - by apply IH.
Qed.

(** A name without a slash is untouched by [strip(os.sep)]. *)
Lemma noslash_stripped name :
  name ≠ "" → Str.count "/" name = 0 → stripped (Str.is_char "/") name.
Proof.
  intros Hne Hc. split; [|by apply noslash_last].
  destruct name as [|a t]; [done|]. exists a, t. split; [done|].
  simpl in Hc. unfold Str.is_char. by case_bool_decide.
Qed.

Lemma legal_stripped l :
  Forall (λ n, legal_name n = true) l → Forall (stripped (Str.is_char "/")) l.
Proof.
  intros Hall. eapply Forall_impl; [done|].
  intros n (? & _ & _ & ?)%legal_name_spec. by apply noslash_stripped.
Qed.

Lemma legal_noslash l :
  Forall (λ n, legal_name n = true) l → Forall (λ x, Str.count "/" x = 0) l.
Proof.
  intros Hall. eapply Forall_impl; [done|].
  by intros n (? & _ & _ & ?)%legal_name_spec.
Qed.

(** The depth of a relative path made of legal names is their number. *)
Lemma _depth_join l :
  l ≠ [] → Forall (λ n, legal_name n = true) l → _depth (Str.join "/" l) = length l.
Proof.
  intros Hl Hall. unfold _depth, Str.strip_char, posixpath.sep.
  rewrite stripped_fixed by by apply stripped_join, legal_stripped.
  destruct (stripped_join (Str.is_char "/") "/" l Hl (legal_stripped _ Hall))
    as [(a & t & E & _) _].
  rewrite E. simpl Str.is_empty. cbv iota. rewrite <- E.
  rewrite count_join by by apply legal_noslash.
  destruct l; [done|]. simpl. lia.
Qed.

Lemma norm_fold_legal initial l acc :
  Forall (λ n, legal_name n = true) l →
  fold_left (posixpath.norm_step initial) l acc = acc ++ l.
Proof.
  intros Hall. revert acc.
  induction Hall as [|x r Hx Hr IH]; intros acc; [by rewrite app_nil_r|].
  simpl. apply legal_name_spec in Hx as (H1 & H2 & H3 & H4).
  unfold posixpath.norm_step at 2.
  rewrite bool_decide_eq_false_2 by (by intros [|]).
  rewrite (bool_decide_eq_true_2 (x ≠ "..")) by done. simpl.
  by rewrite IH, <- app_assoc.
Qed.

Lemma join_first sep x r a t :
  x = String a t → ∃ u, Str.join sep (x :: r) = String a u.
Proof.
  intros ->. destruct r as [|y r]; [by eexists|].
  rewrite join_cons, append_cons. by eexists.
Qed.

(** A relative path made of legal names is in normal form. *)
Lemma normpath_join l :
  l ≠ [] → Forall (λ n, legal_name n = true) l →
  posixpath.normpath (Str.join "/" l) = Str.join "/" l.
Proof.
  intros Hl Hall.
  assert (∃ a u, Str.join "/" l = String a u ∧ a ≠ "/"%char) as (a & u & HJ & Ha).
  { destruct l as [|x r]; [done|].
    pose proof (Forall_inv Hall) as (Hx & _ & _ & Hc)%legal_name_spec.
    destruct x as [|a t]; [done|].
    destruct (join_first "/" (String a t) r a t eq_refl) as [u Eu].
    exists a, u. split; [done|]. simpl in Hc. by case_bool_decide. }
  pose proof (split_join l Hl (legal_noslash _ Hall)) as Hsplit.
  remember (Str.join "/" l) as J eqn:EJ.
  unfold posixpath.normpath, posixpath.sep. rewrite Hsplit.
  assert (posixpath.initial_slashes J = 0) as ->.
  { rewrite HJ. unfold posixpath.initial_slashes. simpl.
    by rewrite bool_decide_eq_false_2. }
  rewrite norm_fold_legal by done. rewrite app_nil_l, <- EJ.
  change (Str.repeat_char "/" 0 +:+ J) with J. by rewrite HJ.
Qed.

Lemma legal_first name :
  legal_name name = true → ∃ a t, name = String a t ∧ a ≠ "/"%char.
Proof.
  intros (H1 & _ & _ & Hc)%legal_name_spec. destruct name as [|a t]; [done|].
  exists a, t. split; [done|]. simpl in Hc. by case_bool_decide.
Qed.

Lemma join_legal X name :
  X ≠ "" → legal_name name = true → posixpath.join X name = X +:+ joiner X name.
Proof.
  intros HX (a & t & -> & Ha)%legal_first. unfold posixpath.join, joiner.
  simpl Str.startswith. rewrite bool_decide_eq_false_2 by done. simpl.
  destruct X; [done|]. simpl. unfold posixpath.sep.
  by destruct (Str.endswith_char "/" _).
Qed.

Lemma initial_slashes_join X name :
  X ≠ "" → legal_name name = true →
  posixpath.initial_slashes (X +:+ joiner X name) = posixpath.initial_slashes X.
Proof.
  intros HX (n0 & n' & -> & Hn)%legal_first.
  unfold posixpath.initial_slashes, joiner, Str.endswith_char.
  destruct X as [|a [|b [|c X']]]; [done|..]; simpl;
    repeat (case_bool_decide; simplify_eq; simpl; try done).
Qed.

Lemma last_decompose X c : Str.last X = Some c → ∃ Y, X = Y +:+ String c "".
Proof.
  induction X as [|a X IH]; [done|]. simpl. destruct X as [|b X].
  - intros [= ->]. by exists "".
  - intros (Y & ->)%IH. by exists (String a Y).
Qed.

Lemma norm_comps_join X name :
  X ≠ "" → legal_name name = true →
  norm_comps (X +:+ joiner X name) = norm_comps X ++ [name].
Proof.
  intros HX Hn. unfold norm_comps. rewrite initial_slashes_join by done.
  set (i := posixpath.initial_slashes X).
  assert (∀ acc, posixpath.norm_step i acc name = acc ++ [name]) as Hstep.
  { intros acc. by rewrite <- (norm_fold_legal i [name] acc) by by constructor. }
  unfold joiner, Str.endswith_char. case_bool_decide as He.
  - apply last_decompose in He as [Y ->].
    rewrite append_assoc. change (String "/" "" +:+ name) with (String "/" name).
    rewrite !split_app_sep. simpl Str.split at 3.
    rewrite (split_none "/" name) by by apply legal_name_spec in Hn as (_&_&_&?).
    rewrite !fold_left_app. simpl. by rewrite Hstep.
  - change ("/" +:+ name) with (String "/" name).
    rewrite split_app_sep, fold_left_app.
    rewrite (split_none "/" name) by by apply legal_name_spec in Hn as (_&_&_&?).
    simpl. by rewrite Hstep.
Qed.

Lemma abspath_absolutize cwd path :
  posixpath.abspath cwd path = posixpath.normpath (absolutize cwd path).
Proof. unfold posixpath.abspath, absolutize. by destruct (posixpath.isabs path). Qed.

Lemma isabs_app X Z : X ≠ "" → posixpath.isabs (X +:+ Z) = posixpath.isabs X.
Proof. by destruct X. Qed.

Lemma absolutize_abs cwd path :
  posixpath.isabs cwd = true → posixpath.isabs (absolutize cwd path) = true.
Proof.
  intros Hc. unfold absolutize. destruct (posixpath.isabs path) eqn:E; [done|].
  unfold posixpath.join. unfold posixpath.isabs in E. rewrite E.
  destruct cwd as [|a cwd]; [done|]. simpl.
  by destruct (Str.endswith_char _ _).
Qed.

Lemma absolutize_join cwd top name :
  top ≠ "" → legal_name name = true →
  absolutize cwd (top +:+ joiner top name)
  = absolutize cwd top +:+ joiner (absolutize cwd top) name.
Proof.
  intros Ht Hn. unfold absolutize. rewrite isabs_app by done.
  destruct (posixpath.isabs top) eqn:E; [done|].
  unfold posixpath.join. unfold posixpath.isabs in E.
  assert (Str.startswith "/" (top +:+ joiner top name) = false) as ->.
  { by destruct top. }
  rewrite E.
  assert (∀ pre, joiner (pre +:+ top) name = joiner top name) as Hj.
  { intros pre. unfold joiner, Str.endswith_char. by rewrite last_app. }
  destruct (Str.is_empty cwd || Str.endswith_char posixpath.sep cwd).
  - by rewrite Hj, append_assoc.
  - rewrite <- (append_assoc cwd "/" top), Hj. by rewrite !append_assoc.
Qed.

Lemma Forall_removelast {A} (P : A → Prop) l : Forall P l → Forall P (removelast l).
Proof.
  induction 1 as [|x l Hx Hl IH]; [done|]. simpl.
  destruct l; [done|]. by constructor.
Qed.

Lemma norm_fold_proper initial l acc :
  Forall (λ x, Str.count "/" x = 0) l →
  Forall (λ x, x ≠ "" ∧ Str.count "/" x = 0) acc →
  Forall (λ x, x ≠ "" ∧ Str.count "/" x = 0)
    (fold_left (posixpath.norm_step initial) l acc).
Proof.
  intros Hall. revert acc. induction Hall as [|x r Hx Hr IH]; intros acc Hacc; [done|].
  simpl. apply IH. unfold posixpath.norm_step.
  case_bool_decide as H1; [done|].
  destruct (_ || _).
  - apply Forall_app. split; [done|]. apply Forall_singleton.
    split; [|done]. intros ->. apply H1. by left.
  - by apply Forall_removelast.
Qed.

Lemma norm_comps_proper path :
  Forall (λ x, x ≠ "" ∧ Str.count "/" x = 0) (norm_comps path).
Proof. apply norm_fold_proper; [apply split_pieces|done]. Qed.

Lemma filter_nonempty_proper l :
  Forall (λ x : string, x ≠ "" ∧ Str.count "/" x = 0) l →
  filter (λ x, x ≠ "") l = l.
Proof.
  induction 1 as [|x l [Hx _] Hl IH]; [done|].
  by rewrite filter_cons_True, IH.
Qed.

Lemma components_join l :
  Forall (λ x : string, x ≠ "" ∧ Str.count "/" x = 0) l →
  posixpath.components (Str.join "/" l) = l.
Proof.
  intros Hall. unfold posixpath.components, posixpath.sep.
  destruct l as [|x r]; [done|].
  rewrite split_join; [by apply filter_nonempty_proper|done|].
  eapply Forall_impl; [done|]. by intros ? [].
Qed.

Lemma components_slash s :
  posixpath.components (String "/" s) = posixpath.components s.
Proof.
  unfold posixpath.components, posixpath.sep.
  change (Str.split "/" (String "/" s)) with ("" :: Str.split "/" s).
  by rewrite filter_cons_False by naive_solver.
Qed.

Lemma normpath_abs X :
  posixpath.isabs X = true →
  ∃ s, posixpath.normpath X = String "/" s
       ∧ posixpath.components (String "/" s) = norm_comps X.
Proof.
  intros Ha. unfold posixpath.normpath.
  change (fold_left _ (Str.split posixpath.sep X) []) with (norm_comps X).
  pose proof (components_join _ (norm_comps_proper X)) as Hc.
  remember (Str.join "/" (norm_comps X)) as J eqn:EJ. clear EJ.
  destruct X as [|a X]; [done|]. simpl Str.is_empty. cbv iota.
  unfold posixpath.isabs in Ha.
  unfold posixpath.initial_slashes. rewrite Ha.
  destruct (_ && _).
  - exists (String "/" J). split; [done|]. by rewrite !components_slash.
  - exists J. split; [done|]. by rewrite !components_slash.
Qed.

Lemma components_normpath X :
  posixpath.isabs X = true → posixpath.components (posixpath.normpath X) = norm_comps X.
Proof. intros (s & -> & Hs)%normpath_abs. done. Qed.

Lemma common_len_app l r : posixpath.common_len l (l ++ r) = length l.
Proof.
  induction l as [|a l IH]; [by destruct r|]. simpl.
  by rewrite bool_decide_eq_true_2, IH.
Qed.

Lemma dirpath_of_nonempty top cs :
  top ≠ "" → Forall (λ n, legal_name n = true) cs → dirpath_of top cs ≠ "".
Proof.
  intros Ht Hall. revert top Ht. unfold dirpath_of.
  induction Hall as [|n cs Hn Hcs IH]; intros top Ht; [done|].
  simpl. apply IH. rewrite join_legal by done. by destruct top.
Qed.

Lemma absolutize_dirpath cwd top cs :
  top ≠ "" → Forall (λ n, legal_name n = true) cs →
  absolutize cwd (dirpath_of top cs) = dirpath_of (absolutize cwd top) cs.
Proof.
  intros Ht Hall. revert top Ht. unfold dirpath_of.
  induction Hall as [|n cs Hn Hcs IH]; intros top Ht; [done|].
  simpl. rewrite join_legal by done. rewrite IH by by destruct top.
  rewrite absolutize_join by done. f_equal.
  rewrite join_legal; [done| |done].
  unfold absolutize. destruct (posixpath.isabs top); [done|].
  unfold posixpath.join. destruct top as [|b top]; [done|].
  destruct (Str.startswith "/" (String b top)); [done|].
  destruct (_ || _); by destruct cwd.
Qed.

Lemma norm_comps_dirpath X cs :
  X ≠ "" → Forall (λ n, legal_name n = true) cs →
  norm_comps (dirpath_of X cs) = norm_comps X ++ cs
  ∧ posixpath.isabs (dirpath_of X cs) = posixpath.isabs X.
Proof.
  intros HX Hall. revert X HX. unfold dirpath_of.
  induction Hall as [|n cs Hn Hcs IH]; intros X HX; [by rewrite app_nil_r|].
  simpl. rewrite join_legal by done.
  destruct (IH (X +:+ joiner X n)) as [-> ->]; [by destruct X|].
  rewrite norm_comps_join, isabs_app by done. by rewrite <- app_assoc.
Qed.

(** [os.path.join] over legal names builds the slash-joined path. *)
Lemma join_fold_legal l r :
  l ≠ [] → Forall (λ n, legal_name n = true) l → Forall (λ n, legal_name n = true) r →
  fold_left posixpath.join r (Str.join "/" l) = Str.join "/" (l ++ r).
Proof.
  intros Hl Hall Hr. revert l Hl Hall.
  induction Hr as [|n r Hn Hr IH]; intros l Hl Hall; [by rewrite app_nil_r|].
  simpl.
  destruct (stripped_join (Str.is_char "/") "/" l Hl (legal_stripped _ Hall))
    as [(a & t & E & _) (c & Hc1 & Hc2)].
  rewrite join_legal; [|by rewrite E|done].
  unfold joiner, Str.endswith_char.
  rewrite bool_decide_eq_false_2.
  2:{ rewrite Hc1. intros [= ->]. unfold Str.is_char in Hc2.
      by rewrite bool_decide_eq_true_2 in Hc2. }
  rewrite <- join_snoc by done. rewrite IH.
  - by rewrite <- app_assoc.
  - by destruct l.
  - apply Forall_app. split; [done|by apply Forall_singleton].
Qed.

(** The directory reached from the root through [cs], relative to the
    root: [.] at the root, else the names joined by slashes. *)
Lemma relpath_dirpath cwd root_abs cs :
  posixpath.isabs cwd = true → root_abs ≠ "" →
  Forall (λ n, legal_name n = true) cs →
  posixpath.relpath cwd (dirpath_of root_abs cs) root_abs
  = match cs with [] => "." | _ => Str.join "/" cs end.
Proof.
  intros Hcwd Hroot Hall. unfold posixpath.relpath.
  rewrite !abspath_absolutize, absolutize_dirpath by done.
  assert (absolutize cwd root_abs ≠ "") as HA.
  { pose proof (absolutize_abs cwd root_abs Hcwd). by destruct (absolutize _ _). }
  destruct (norm_comps_dirpath (absolutize cwd root_abs) cs HA Hall) as [Hn Hi].
  rewrite !components_normpath by (by rewrite ?Hi; apply absolutize_abs).
  rewrite Hn, common_len_app, Nat.sub_diag, drop_app_length. simpl.
  destruct cs as [|c cs]; [done|]. unfold posixpath.join_all.
  apply Forall_cons in Hall as [Hc Hcs].
  change (fold_left posixpath.join cs c)
    with (fold_left posixpath.join cs (Str.join "/" [c])).
  rewrite (join_fold_legal [c] cs); [done|done|by constructor|done].
Qed.

End string_facts.

(** ** The tree indexer *)

#[local] Instance key_le_refl : Reflexive key_le.
Proof. intros p. right. split; [done|]. reflexivity. Qed.

#[local] Instance key_le_trans : Transitive key_le.
Proof.
  intros p q r [H1|[H1 L1]] [H2|[H2 L2]]; unfold key_le.
  - left. lia.
  - left. lia.
  - left. lia.
  - right. split; [lia|]. by etrans.
Qed.

#[local] Instance key_le_total : Total key_le.
Proof.
  intros p q. unfold key_le.
  destruct (lt_eq_lt_dec (_depth p) (_depth q)) as [[Hlt|Heq]|Hgt].
  - left. by left.
  - destruct (total String.le p q); [left|right]; right; by split.
  - right. by left.
Qed.

#[local] Instance key_le_antisymm : AntiSymm (=) key_le.
Proof.
  intros p q [H1|[H1 L1]] [H2|[H2 L2]]; try lia. by apply (anti_symm String.le).
Qed.

(** [list.sort] is modelled by [merge_sort]: the order of the keys is total
    and antisymmetric, so a list has one sorted arrangement, whatever the
    sorting algorithm. *)
Lemma sort_key_unique l l' :
  l' ≡ₚ l → StronglySorted key_le l' → l' = merge_sort key_le l.
Proof.
  intros Hp Hs. apply (StronglySorted_unique key_le); [done| |].
  - apply StronglySorted_merge_sort; apply _.
  - by rewrite merge_sort_Permutation.
Qed.

Section tree_indexer.

Lemma dir_ind' (P : dir → Prop) :
  (∀ fs ds, Forall (λ nd, P nd.2) ds → P (Dir fs ds)) → ∀ d, P d.
Proof.
  intros H. fix IH 1. intros [fs ds]. apply H.
  induction ds as [|[n d'] ds IHds]; constructor; [apply IH|exact IHds].
Qed.

Lemma walk_eq top fs ds :
  walk top (Dir fs ds)
  = (top, ds.*1, fs) :: (ds ≫= λ nd, walk (posixpath.join top nd.1) nd.2).
Proof.
  simpl. f_equal. induction ds as [|[n d'] ds IH]; [done|]. by rewrite IH.
Qed.

Lemma walk_comps_eq cs fs ds :
  walk_comps cs (Dir fs ds)
  = (cs, fs) :: (ds ≫= λ nd, walk_comps (cs ++ [nd.1]) nd.2).
Proof.
  simpl. f_equal. induction ds as [|[n d'] ds IH]; [done|]. by rewrite IH.
Qed.

Lemma files_under_eq fs ds :
  files_under (Dir fs ds)
  = ((λ f, ([], f)) <$> fs)
    ++ (ds ≫= λ nd, (λ x, (nd.1 :: x.1, x.2)) <$> files_under nd.2).
Proof.
  simpl. f_equal. induction ds as [|[n d'] ds IH]; [done|]. by rewrite IH.
Qed.

Lemma legal_dir_eq fs ds :
  legal_dir (Dir fs ds) = true
  ↔ Forall (λ n, legal_name n = true) fs
    ∧ Forall (λ nd, legal_name nd.1 = true ∧ legal_dir nd.2 = true) ds.
Proof.
  simpl. rewrite andb_true_iff, forallb_forall, <- List.Forall_forall.
  apply and_iff_compat_l.
  induction ds as [|[n d'] ds IH]; [by split; [constructor|]|].
  rewrite !andb_true_iff, IH, Forall_cons. simpl. tauto.
Qed.

Lemma scan_list_eq cs fs ds :
  scan_list cs (Dir fs ds)
  = ((λ f, (cs, f)) <$> merge_sort String.le fs)
    ++ (ds ≫= λ nd, scan_list (cs ++ [nd.1]) nd.2).
Proof.
  unfold scan_list. rewrite walk_comps_eq, bind_cons. f_equal.
  induction ds as [|nd ds IH]; [done|].
  by rewrite !bind_cons, bind_app, IH.
Qed.

Lemma fold_left_fmap' {A B C} (f : A → B → A) (h : C → B) l a :
  fold_left f (h <$> l) a = fold_left (λ a x, f a (h x)) l a.
Proof. revert a. induction l as [|x l IH]; intros a; [done|]. simpl. apply IH. Qed.

Lemma fold_left_ext_Forall {A B} (f g : A → B → A) l a :
  Forall (λ x, ∀ a, f a x = g a x) l → fold_left f l a = fold_left g l a.
Proof.
  intros Hall. revert a. induction Hall as [|x l Hx Hl IH]; intros a; [done|].
  simpl. by rewrite Hx, IH.
Qed.

Lemma join_not_dot cs :
  cs ≠ [] → Forall (λ n, legal_name n = true) cs → Str.join "/" cs ≠ ".".
Proof.
  intros Hcs Hall E. destruct cs as [|c [|c' cs]]; [done|..].
  - by apply Forall_inv, legal_name_spec in Hall as (_ & ? & _).
  - apply (f_equal (Str.count "/")) in E.
    rewrite count_join in E by by apply legal_noslash. done.
Qed.

(** The relative path [tree_scan] computes for a file. *)
Lemma scan_rel_path cs f :
  Forall (λ n, legal_name n = true) cs → legal_name f = true →
  (let rel_dir := match cs with [] => "." | _ => Str.join "/" cs end in
   if bool_decide (rel_dir = ".") then f
   else posixpath.normpath (posixpath.join rel_dir f))
  = rel_path_of (cs, f).
Proof.
  intros Hcs Hf. unfold rel_path_of. simpl.
  destruct cs as [|c cs]; [done|].
  rewrite bool_decide_eq_false_2 by by apply join_not_dot.
  change (posixpath.join ?a f) with (fold_left posixpath.join [f] a).
  rewrite join_fold_legal by (done || by constructor).
  apply normpath_join; [done|].
  apply Forall_app. split; [done|by constructor].
Qed.

Lemma scan_dir_files cwd root_abs cs dn fs index :
  posixpath.isabs cwd = true → root_abs ≠ "" →
  Forall (λ n, legal_name n = true) cs → Forall (λ n, legal_name n = true) fs →
  scan_dir cwd root_abs index (dirpath_of root_abs cs, dn, fs)
  = fold_left add_file ((λ f, (cs, f)) <$> merge_sort String.le fs) index.
Proof.
  intros Hcwd Hroot Hcs Hfs. unfold scan_dir.
  rewrite relpath_dirpath by done. rewrite fold_left_fmap'.
  apply fold_left_ext_Forall.
  assert (Forall (λ n, legal_name n = true) (merge_sort String.le fs)) as Hs.
  { by rewrite merge_sort_Permutation. }
  eapply Forall_impl; [exact Hs|]. intros f Hf idx. unfold add_file. simpl.
  by rewrite <- (scan_rel_path cs f) by done.
Qed.

Lemma dirpath_of_snoc top cs n :
  posixpath.join (dirpath_of top cs) n = dirpath_of top (cs ++ [n]).
Proof. unfold dirpath_of. by rewrite fold_left_app. Qed.

Lemma scan_walk cwd root_abs d :
  posixpath.isabs cwd = true → root_abs ≠ "" →
  ∀ cs index,
    legal_dir d = true → Forall (λ n, legal_name n = true) cs →
    fold_left (scan_dir cwd root_abs) (walk (dirpath_of root_abs cs) d) index
    = fold_left add_file (scan_list cs d) index.
Proof.
  intros Hcwd Hroot. induction d as [fs ds IH] using dir_ind'.
  intros cs index [Hfs Hds]%legal_dir_eq Hcs.
  rewrite walk_eq, scan_list_eq, fold_left_app. cbn [fold_left].
  rewrite scan_dir_files by done.
  generalize (fold_left add_file ((λ f, (cs, f)) <$> merge_sort String.le fs) index).
  clear index. induction ds as [|[n d'] ds IHds]; intros index; [done|].
  apply Forall_cons in IH as [IHd IH]. apply Forall_cons in Hds as [[Hn Hd] Hds].
  rewrite !bind_cons, !fold_left_app. simpl in *.
  rewrite dirpath_of_snoc.
  rewrite IHd; [|done|apply Forall_app; split; [done|by constructor]].
  by apply IHds.
Qed.

Lemma scan_list_files d cs :
  scan_list cs d ≡ₚ (λ x, (cs ++ x.1, x.2)) <$> files_under d.
Proof.
  revert cs. induction d as [fs ds IH] using dir_ind'. intros cs.
  rewrite scan_list_eq, files_under_eq, fmap_app. f_equiv.
  - rewrite merge_sort_Permutation, <- list_fmap_compose.
    apply reflexive_eq, list_fmap_ext. intros ? f _. simpl. by rewrite app_nil_r.
  - induction ds as [|[n d'] ds IHds]; [done|].
    apply Forall_cons in IH as [IHd IH].
    rewrite !bind_cons, fmap_app. f_equiv; [|by apply IHds].
    simpl in *. rewrite IHd, <- list_fmap_compose.
    apply reflexive_eq, list_fmap_ext. intros ? x _. simpl.
    by rewrite <- app_assoc.
Qed.

Lemma files_under_legal d :
  legal_dir d = true →
  Forall (λ x, Forall (λ n, legal_name n = true) (x.1 ++ [x.2])) (files_under d).
Proof.
  induction d as [fs ds IH] using dir_ind'. intros [Hfs Hds]%legal_dir_eq.
  rewrite files_under_eq. apply Forall_app. split.
  - apply Forall_fmap. eapply Forall_impl; [exact Hfs|]. intros f Hf. simpl.
    by constructor.
  - induction ds as [|[n d'] ds IHds]; [done|].
    apply Forall_cons in IH as [IHd IH]. apply Forall_cons in Hds as [[Hn Hd] Hds].
    rewrite bind_cons. apply Forall_app. split; [|by apply IHds].
    apply Forall_fmap. eapply Forall_impl; [by apply IHd|].
    intros x Hx. simpl. by constructor.
Qed.

(** Looking a filename up in the index the scan has built. *)
Lemma add_files_lookup l index filename :
  fold_left add_file l index !! filename
  = match rel_path_of <$> filter (λ x, x.2 = filename) l with
    | [] => index !! filename
    | paths => Some (default [] (index !! filename) ++ paths)
    end.
Proof.
  revert index. induction l as [|x l IH]; intros index; [done|].
  cbn [fold_left]. rewrite IH, filter_cons.
  assert (add_file index x
          = <[x.2 := default [] (index !! x.2) ++ [rel_path_of x]]> index) as ->
    by done.
  destruct (decide (x.2 = filename)) as [->|Hne].
  - rewrite lookup_insert_eq, fmap_cons. simpl.
    destruct (rel_path_of <$> _); [done|]. by rewrite <- app_assoc.
  - by rewrite lookup_insert_ne.
Qed.

Lemma legal_world_dir w root_abs mtime d :
  legal_world w → at_path w !! root_abs = Some (Directory mtime d) →
  legal_dir d = true.
Proof. intros [_ Hw] Hd. exact (Hw _ _ Hd). Qed.

(** The index before the final sort of its lists. *)
Lemma scan_index_lookup w root_abs filename :
  legal_world w → root_abs ≠ "" →
  ∃ paths,
    fold_left (scan_dir (getcwd w) root_abs) (os_walk w root_abs) ∅ !! filename
    = match paths with [] => None | _ => Some paths end
    ∧ paths ≡ₚ paths_named w root_abs filename.
Proof.
  intros Hw Hroot. unfold os_walk, paths_named, files_below.
  destruct (at_path w !! root_abs) as [[m c|m d]|] eqn:E;
    [by exists []|..|by exists []].
  pose proof (legal_world_dir _ _ _ _ Hw E) as Hd. destruct Hw as [Hcwd _].
  change (walk root_abs d) with (walk (dirpath_of root_abs []) d).
  rewrite scan_walk by done. rewrite add_files_lookup, lookup_empty.
  exists (rel_path_of <$> filter (λ x, x.2 = filename) (scan_list [] d)).
  split; [by destruct (rel_path_of <$> _)|].
  rewrite scan_list_files. do 2 f_equiv.
  apply reflexive_eq. rewrite <- (list_fmap_id (files_under d)) at 2.
  apply list_fmap_ext. by intros ? [cs f] _.
Qed.

(** The entries of the index a scan returns. *)
Lemma tree_scan_entries w root_abs :
  legal_world w → root_abs ≠ "" → path_exists w root_abs = true →
  ∃ index,
    tree_scan w root_abs = Ok index
    ∧ ∀ filename,
        match index !! filename with
        | Some paths =>
            paths ≠ []
            ∧ paths ≡ₚ paths_named w root_abs filename
            ∧ StronglySorted key_le paths
        | None => paths_named w root_abs filename = []
        end.
Proof.
  intros Hw Hroot He. unfold tree_scan. rewrite He.
  destruct root_abs as [|a r]; [done|]. simpl Str.is_empty. cbn [negb orb].
  eexists. split; [done|].
  intros filename. rewrite lookup_fmap.
  destruct (scan_index_lookup w (String a r) filename Hw Hroot)
    as (paths & -> & Hp).
  destruct paths as [|p paths]; simpl.
  - by apply Permutation_nil.
  - split_and!.
    + intros E. apply (f_equal length) in E.
      by rewrite merge_sort_Permutation in E.
    + by rewrite merge_sort_Permutation.
    + apply StronglySorted_merge_sort; apply _.
Qed.

(** The depth of the relative path of a file under the root. *)
Lemma files_below_depth w root_abs x :
  legal_world w → x ∈ files_below w root_abs →
  _depth (rel_path_of x) = depth_of x.
Proof.
  intros Hw Hx. unfold files_below in Hx.
  destruct (at_path w !! root_abs) as [[m c|m d]|] eqn:E;
    try by apply elem_of_nil in Hx.
  pose proof (files_under_legal d (legal_world_dir _ _ _ _ Hw E)) as Hall.
  rewrite Forall_forall in Hall. specialize (Hall x Hx).
  unfold rel_path_of, depth_of. rewrite _depth_join; [|by destruct (x.1)|done].
  by rewrite length_app.
Qed.

(** C1. For a root that exists in a legal snapshot, [tree_scan] returns an
    index that maps each filename borne by a file under the root to the
    list of all relative paths of the files of that name, sorted ascending
    by depth and then by the relative path as a string; a filename borne
    by no file has no entry.  The depth [_depth] counts is 1 for a file
    in the root and one more for each directory on the way. *)
Theorem tree_scan_index w root_abs :
  legal_world w → root_abs ≠ "" → path_exists w root_abs = true →
  ∃ index,
    tree_scan w root_abs = Ok index
    ∧ (∀ filename,
         match index !! filename with
         | Some paths =>
             paths ≠ []
             ∧ paths ≡ₚ paths_named w root_abs filename
             ∧ StronglySorted key_le paths
         | None => paths_named w root_abs filename = []
         end)
    ∧ (∀ x, x ∈ files_below w root_abs → _depth (rel_path_of x) = depth_of x).
Proof.
  intros Hw Hroot He.
  destruct (tree_scan_entries w root_abs Hw Hroot He) as (index & Hscan & Hidx).
  exists index. split_and!; [done|done|].
  intros x Hx. by eapply files_below_depth.
Qed.

End tree_indexer.

(** ** The lookup resolver *)

Section lookup.

Context (json_load : string → result pyval).
Context (csv_rows : string → result (list (list (string * string)))).

Lemma join_legal_first l :
  l ≠ [] → Forall (λ n, legal_name n = true) l →
  ∃ a t, Str.join "/" l = String a t ∧ a ≠ "/"%char.
Proof.
  intros Hl Hall. destruct l as [|x r]; [done|].
  apply Forall_inv, legal_first in Hall as (a & t & -> & Ha).
  destruct (join_first "/" (String a t) r a t eq_refl) as [u Eu]. by exists a, u.
Qed.

Lemma tree_scan_ok w root_abs index :
  tree_scan w root_abs = Ok index → root_abs ≠ "" ∧ path_exists w root_abs = true.
Proof.
  unfold tree_scan. destruct root_abs; [done|].
  by destruct (path_exists w _).
Qed.

(** The entries of a scanned tree: a legal filename, and a non-empty
    sorted list of relative paths, none of which starts with a slash. *)
Lemma scanned_tree_lookup tree filename paths :
  scanned_tree tree → tree !! filename = Some paths →
  legal_name filename = true
  ∧ paths ≠ []
  ∧ StronglySorted key_le paths
  ∧ Forall (λ rp, ∃ a t, rp = String a t ∧ a ≠ "/"%char) paths.
Proof.
  intros (w & root_abs & Hw & Hscan) Hl.
  destruct (tree_scan_ok _ _ _ Hscan) as [Hroot He].
  destruct (tree_scan_entries w root_abs Hw Hroot He) as (index & Hi & Hidx).
  rewrite Hscan in Hi. injection Hi as <-.
  specialize (Hidx filename). rewrite Hl in Hidx. destruct Hidx as (Hne & Hp & Hs).
  assert (∀ rp, rp ∈ paths →
            legal_name filename = true ∧ ∃ a t, rp = String a t ∧ a ≠ "/"%char) as H.
  { intros rp Hrp. rewrite Hp in Hrp. unfold paths_named, files_below in Hrp.
    apply list_elem_of_fmap in Hrp as (x & -> & [Hx Hin]%list_elem_of_filter).
    destruct (at_path w !! root_abs) as [[m c|m d]|] eqn:E;
      try by apply elem_of_nil in Hin.
    pose proof (files_under_legal d (legal_world_dir _ _ _ _ Hw E)) as Hall.
    rewrite Forall_forall in Hall. specialize (Hall x Hin). split.
    - apply Forall_app in Hall as [_ Hf]. apply Forall_inv in Hf. by rewrite <- Hx.
    - apply join_legal_first; [by destruct (x.1)|done]. }
  split_and!; [|done|done|].
  - destruct paths as [|p paths]; [done|]. apply (H p). by left.
  - apply Forall_forall. intros rp Hrp. by apply H.
Qed.

(** C2. When the base filename of the normalized name has an entry in the
    tree index and the effective scope is empty or the root, [find]
    selects the first element of the candidate list, which is the candidate
    with the smallest (depth, relative path), and reads that file. *)
Theorem find_unscoped self name start paths :
  scanned_tree (tree self) →
  tree self !! posixpath.basename (posixpath.normpath name) = Some paths →
  effective_start name start = "" ∨ effective_start name start = "." →
  ∃ first,
    head paths = Some first
    ∧ find_rel_path self name start = Ok first
    ∧ (∀ candidate, candidate ∈ paths → key_le first candidate)
    ∧ ∀ w parse_known_types,
        find json_load csv_rows w self name start parse_known_types
        = load_found json_load csv_rows w self first parse_known_types.
Proof.
  intros Ht Hl Hes.
  destruct (scanned_tree_lookup _ _ _ Ht Hl) as (Hbase & Hne & Hs & _).
  destruct paths as [|first rest]; [done|]. exists first.
  assert (find_rel_path self name start = Ok first) as Hfind.
  { unfold find_rel_path. destruct name as [|a name]; [done|].
    simpl Str.is_empty. cbv iota. rewrite Hl.
    by destruct Hes as [-> | ->]. }
  split_and!; [done|done| |].
  - apply StronglySorted_cons in Hs as [Hall _].
    intros c [->|Hc]%elem_of_cons; [done|].
    rewrite Forall_forall in Hall. by apply Hall.
  - intros w parse_known_types. unfold find. by rewrite Hfind.
Qed.

Lemma find_ext_Forall {A} (f g : A → bool) (P : A → Prop) l :
  Forall P l → (∀ x, P x → f x = g x) → List.find f l = List.find g l.
Proof.
  intros Hall Hfg. induction Hall as [|x l Hx Hl IH]; [done|].
  simpl. by rewrite (Hfg x Hx), IH.
Qed.

(** What [normpath] returns either ends with no slash or is all slashes. *)
Lemma normpath_shape path :
  Str.rstrip_char "/" (posixpath.normpath path) = posixpath.normpath path
  ∨ posixpath.normpath path = "/" ∨ posixpath.normpath path = "//".
Proof.
  unfold posixpath.normpath. destruct (Str.is_empty path); [by left|].
  change (fold_left _ (Str.split posixpath.sep path) []) with (norm_comps path).
  pose proof (norm_comps_proper path) as Hp.
  assert (posixpath.initial_slashes path = 0 ∨ posixpath.initial_slashes path = 1
          ∨ posixpath.initial_slashes path = 2) as Hi.
  { unfold posixpath.initial_slashes.
    destruct (Str.startswith "/" path); [|by left].
    destruct (_ && _); auto. }
  destruct (norm_comps path) as [|c cs] eqn:E.
  - destruct Hi as [-> | [-> | ->]]; simpl; auto.
  - left.
    assert (Forall (stripped (Str.is_char "/")) (c :: cs)) as Hst.
    { eapply Forall_impl; [exact Hp|]. intros ? []. by apply noslash_stripped. }
    destruct (stripped_join _ "/" (c :: cs) ltac:(done) Hst)
      as [(a & t & EJ & _) (z & Hz1 & Hz2)].
    remember (Str.join "/" (c :: cs)) as J eqn:HJ. clear HJ.
    assert (Str.is_empty
              (Str.repeat_char posixpath.sep (posixpath.initial_slashes path) +:+ J)
            = false) as ->.
    { rewrite EJ. by destruct (Str.repeat_char _ _). }
    apply (rstrip_keep _ _ z); [|done]. rewrite last_app; [done|by rewrite EJ].
Qed.

Lemma effective_start_normal name start :
  effective_start name start ≠ "" →
  ∃ path, effective_start name start = posixpath.normpath path.
Proof.
  unfold effective_start. destruct (_ || _); [|done]. by eexists.
Qed.

(** On relative paths of a scanned tree, the test of the code (against
    the scope without trailing slashes) is the test against the scope. *)
Lemma under_prefix_in_scope scope rp a t :
  (∃ path, scope = posixpath.normpath path) → rp = String a t → a ≠ "/"%char →
  under_prefix (Str.rstrip_char posixpath.sep scope) rp = in_scope scope rp.
Proof.
  intros [path ->] -> Ha. unfold posixpath.sep.
  destruct (normpath_shape path) as [-> | [-> | ->]]; [done|..];
    unfold under_prefix, in_scope; simpl;
    rewrite !(bool_decide_eq_false_2 ("/"%char = a)) by congruence;
    by rewrite bool_decide_eq_false_2 by congruence.
Qed.

(** C3. For a call that passes the name check of [find] (the name is not
    empty) and an effective scope that is neither empty nor the root: when the base filename has no
    entry in the tree index, [find] fails with the not-found-under-root
    error; else it goes through the candidates in their sorted order and
    selects the first one that equals the scope or begins with the scope
    followed by a slash, which it then reads, and fails with the
    not-found-under-scope error when there is none. *)
Theorem find_scoped self name start :
  scanned_tree (tree self) → name ≠ "" →
  effective_start name start ≠ "" → effective_start name start ≠ "." →
  find_rel_path self name start = scoped_lookup self name start
  ∧ ∀ w parse_known_types,
      find json_load csv_rows w self name start parse_known_types
      = match scoped_lookup self name start with
        | Ok rp => load_found json_load csv_rows w self rp parse_known_types
        | Raise e => Raise e
        end.
Proof.
  intros Ht Hname He1 He2.
  assert (find_rel_path self name start = scoped_lookup self name start) as Hfind.
  { unfold find_rel_path, scoped_lookup.
    destruct name as [|a name]; [done|]. simpl Str.is_empty. cbv iota.
    destruct (tree self !! _) as [paths|] eqn:Hl; [|done].
    destruct (scanned_tree_lookup _ _ _ Ht Hl) as (_ & Hne & _ & Hall).
    destruct paths as [|first rest]; [done|].
    destruct (effective_start (String a name) start) as [|e es] eqn:Ees; [done|].
    simpl Str.is_empty.
    rewrite (bool_decide_eq_false_2 (String e es = ".")) by done.
    cbn [orb].
    rewrite (find_ext_Forall _ (in_scope (String e es)) _ _ Hall); [done|].
    intros rp (b & t & -> & Hb). eapply under_prefix_in_scope; [|done|done].
    rewrite <- Ees. apply effective_start_normal. by rewrite Ees. }
  split; [done|]. intros w parse_known_types. unfold find. rewrite Hfind.
  by destruct (scoped_lookup self name start).
Qed.

End lookup.

(** *** Closed instances for the indexer and the resolver *)

Lemma demo_world_legal : legal_world demo_world.
Proof.
  split; [done|]. refine (bool_decide_unpack _ _). by vm_compute.
Qed.

Lemma demo_tree_scanned : scanned_tree demo_tree.
Proof.
  exists demo_world, "/srv/root". split; [apply demo_world_legal|].
  vm_compute; reflexivity.
Qed.

Lemma tree_scan_index_witness :
  legal_world demo_world
  ∧ path_exists demo_world "/srv/root" = true
  ∧ tree_scan demo_world "/srv/root" = Ok demo_tree
  ∧ paths_named demo_world "/srv/root" "x.txt"
    = ["x.txt"; "b/x.txt"; "b/c/x.txt"; "a/x.txt"]
  ∧ (["b"; "c"], "x.txt") ∈ files_below demo_world "/srv/root"
  ∧ _depth "b/c/x.txt" = 3.
Proof.
  destruct (tree_scan_index demo_world "/srv/root" demo_world_legal)
    as (index & Hscan & _ & Hdepth); [done|by vm_compute|].
  split_and!.
  - apply demo_world_legal.
  - by vm_compute.
  - rewrite Hscan. f_equal. assert (Ok index = Ok demo_tree) as [= ->]; [|done].
    rewrite <- Hscan. vm_compute; reflexivity.
  - by vm_compute.
  - apply (list_elem_of_lookup_2 _ 4). by vm_compute.
  - apply (Hdepth (["b"; "c"], "x.txt")).
    apply (list_elem_of_lookup_2 _ 4). by vm_compute.
Defined.

Lemma find_unscoped_witness :
  tree demo_facade !! posixpath.basename (posixpath.normpath "x.txt")
  = Some ["x.txt"; "a/x.txt"; "b/x.txt"; "b/c/x.txt"]
  ∧ effective_start "x.txt" None = ""
  ∧ ∃ first,
      head ["x.txt"; "a/x.txt"; "b/x.txt"; "b/c/x.txt"] = Some first
      ∧ find_rel_path demo_facade "x.txt" None = Ok first
      ∧ (∀ candidate,
           candidate ∈ ["x.txt"; "a/x.txt"; "b/x.txt"; "b/c/x.txt"] →
           key_le first candidate)
      ∧ ∀ w parse_known_types,
          find demo_json demo_csv w demo_facade "x.txt" None parse_known_types
          = load_found demo_json demo_csv w demo_facade first parse_known_types.
Proof.
  split_and!; [by vm_compute|by vm_compute|].
  apply (find_unscoped demo_json demo_csv demo_facade "x.txt" None).
  - apply demo_tree_scanned.
  - by vm_compute.
  - left. by vm_compute.
Defined.

Lemma find_scoped_witness :
  "x.txt" ≠ ""
  ∧ effective_start "x.txt" (Some "b") = "b"
  ∧ find_rel_path demo_facade "x.txt" (Some "b") = Ok "b/x.txt"
  ∧ find_rel_path demo_facade "x.txt" (Some "c")
    = Raise (FileNotFoundError
               "'x.txt' not found under scope 'c' (root '/srv/root').")
  ∧ find_rel_path demo_facade "y.txt" (Some "b")
    = Raise (FileNotFoundError "'y.txt' not found under root '/srv/root'.").
Proof.
  split_and!; [done|by vm_compute|..].
  - destruct (find_scoped demo_json demo_csv demo_facade "x.txt" (Some "b"))
      as [-> _];
      [apply demo_tree_scanned|done|by vm_compute|by vm_compute|by vm_compute].
  - destruct (find_scoped demo_json demo_csv demo_facade "x.txt" (Some "c"))
      as [-> _];
      [apply demo_tree_scanned|done|by vm_compute|by vm_compute|by vm_compute].
  - destruct (find_scoped demo_json demo_csv demo_facade "y.txt" (Some "b"))
      as [-> _];
      [apply demo_tree_scanned|done|by vm_compute|by vm_compute|by vm_compute].
Defined.

(** * Further properties *)

(** ** Further properties of the cache layer *)

Section cache_composition.

Context (json_load : string → result pyval).

(** A successful lookup leaves an entry for its key that holds the
    configuration it returned and the file's modification time. *)
Lemma _get_config_entry w path conf_type required_keys cls config cls' :
  _get_config json_load w path conf_type required_keys cls = (Ok config, cls') →
  path_exists w path = true
  ∧ _config_cache cls' !! (path, conf_type)
    = Some (CacheEntry (getmtime w path) config).
Proof.
  unfold _get_config. destruct (path_exists w path); unfold_M; [|done].
  destruct (_config_cache cls !! _) as [[m c]|] eqn:E.
  - case_bool_decide as Hm; simpl in *.
    + intros [= <- <-]. by rewrite E, Hm.
    + destruct (load_config _ _ _ _ _); [|done]. intros [= <- <-].
      split; [done|]. apply lookup_insert_eq.
  - destruct (load_config _ _ _ _ _); [|done]. intros [= <- <-].
    split; [done|]. apply lookup_insert_eq.
Qed.

(** X1. After a successful config lookup, a lookup of the same path and
    kind in any snapshot where the file has the same modification time
    returns the same configuration and leaves the caches alone, whatever
    the file now holds and whatever keys are required. *)
Theorem config_lookup_repeat w w' path conf_type required_keys required_keys'
    cls config cls' :
  _get_config json_load w path conf_type required_keys cls = (Ok config, cls') →
  path_exists w' path = true → getmtime w' path = getmtime w path →
  _get_config json_load w' path conf_type required_keys' cls' = (Ok config, cls').
Proof.
  intros H Hex Hm. apply _get_config_entry in H as [_ He].
  by rewrite (_get_config_hit _ _ _ _ _ _ _ Hex He).
Qed.

(** X2. A config lookup, failing or not, leaves the tree cache and every
    config entry of another path or kind as they were. *)
Theorem config_lookup_frame w path conf_type required_keys cls outcome cls' :
  _get_config json_load w path conf_type required_keys cls = (outcome, cls') →
  _tree_cache cls' = _tree_cache cls
  ∧ ∀ key, key ≠ (path, conf_type) →
           _config_cache cls' !! key = _config_cache cls !! key.
Proof.
  destruct outcome as [config|e]; intros H.
  - apply _get_config_ok in H as [-> | [_ ->]]; [done|].
    split; [done|]. intros key Hk. simpl. by rewrite lookup_insert_ne.
  - by apply _get_config_raise in H as ->.
Qed.

(** A successful tree request leaves the tree it returned in the cache,
    and the config cache as it was. *)
Lemma _get_tree_entry w root_abs cls tree cls' :
  _get_tree w root_abs cls = (Ok tree, cls') →
  _tree_cache cls' !! root_abs = Some tree
  ∧ _config_cache cls' = _config_cache cls.
Proof.
  rewrite _get_tree_spec. unfold built_or_fetched.
  destruct (_tree_cache cls !! root_abs) as [t|] eqn:E.
  - by intros [= <- <-].
  - destruct (tree_scan w root_abs); [|done]. intros [= <- <-]. simpl.
    by rewrite lookup_insert_eq.
Qed.

(** X3. Once the tree of a root is cached, every later request for that
    root returns it without a scan, in whatever state the file system is. *)
Theorem tree_lookup_memo w w' root_abs cls tree cls' :
  _get_tree w root_abs cls = (Ok tree, cls') →
  _tree_cache cls' !! root_abs = Some tree
  ∧ _get_tree w' root_abs cls' = (Ok tree, cls').
Proof.
  intros H. apply _get_tree_entry in H as [He _]. split; [done|].
  rewrite _get_tree_spec. unfold built_or_fetched. by rewrite He.
Qed.

(** X4. A tree request, failing or not, leaves the config cache and the
    tree of every other root as they were. *)
Theorem tree_lookup_frame w root_abs cls outcome cls' :
  _get_tree w root_abs cls = (outcome, cls') →
  _config_cache cls' = _config_cache cls
  ∧ ∀ other, other ≠ root_abs →
             _tree_cache cls' !! other = _tree_cache cls !! other.
Proof.
  rewrite _get_tree_spec. unfold built_or_fetched.
  destruct (_tree_cache cls !! root_abs) as [t|] eqn:E.
  - by intros [= <- <-].
  - destruct (tree_scan w root_abs); intros [= <- <-]; [|done].
    split; [done|]. intros other Ho. simpl. by rewrite lookup_insert_ne.
Qed.

(** X5. After [invalidate_caches(root=r)], the next request for the
    absolute form of [r] scans the file system as it is then, and caches
    the new index in place of the old one. *)
Theorem invalidate_then_rescan w0 w r cls :
  let root_abs := posixpath.abspath (getcwd w0) r in
  let cls1 := (invalidate_caches w0 None (Some r) cls).2 in
  _get_tree w root_abs cls1
  = match tree_scan w root_abs with
    | Ok tree =>
        (Ok tree, Caches (_config_cache cls) (<[root_abs := tree]> (_tree_cache cls)))
    | Raise e => (Raise e, cls1)
    end.
Proof.
  intros root_abs cls1. rewrite _get_tree_spec. unfold built_or_fetched, cls1.
  simpl. rewrite lookup_delete_eq.
  destruct (tree_scan w root_abs); [|done]. by rewrite insert_delete_eq.
Qed.

(** A construction that succeeds, step by step. *)
Lemma __init__ok w config_path conf_type required_keys force_refresh cls f cls' :
  __init__ json_load w config_path conf_type required_keys force_refresh cls
  = (Ok f, cls') →
  ∃ cls1 m s,
    _get_config json_load w config_path conf_type required_keys
      (after_refresh config_path force_refresh cls) = (Ok (config f), cls1)
    ∧ config f = PDict m ∧ m !! "root" = Some (PStr s) ∧ s ≠ ""
    ∧ root f = posixpath.abspath (getcwd w) s
    ∧ _get_tree w (root f) cls1 = (Ok (tree f), cls').
Proof.
  destruct (_get_config json_load w config_path conf_type required_keys
              (after_refresh config_path force_refresh cls))
    as [[cfg|e] cls1] eqn:Hc.
  - rewrite (__init__loaded _ _ _ _ _ _ _ _ _ Hc).
    destruct (get_value cfg "root") as [v|e] eqn:Hv; [|done].
    destruct (truthy v) eqn:Htv; [|done].
    destruct v as [s| | | | | |]; simpl; try done.
    rewrite <- _get_tree_spec.
    destruct (_get_tree w _ cls1) as [[t|e] cls2] eqn:Hg; [|done].
    intros [= <- <-].
    destruct cfg as [| | | | | |m]; try done. simpl in Hv.
    destruct (m !! "root") as [v|] eqn:Hm; simpl in Hv; [|done].
    injection Hv as ->.
    exists cls1, m, s. split_and!; try done.
    intros ->. done.
  - by rewrite (__init__not_loaded _ _ _ _ _ _ _ _ _ Hc).
Qed.

(** A construction that succeeds leaves the configuration and the tree of
    the facade in the caches. *)
Lemma __init__entries w config_path conf_type required_keys force_refresh cls
    f cls' :
  __init__ json_load w config_path conf_type required_keys force_refresh cls
  = (Ok f, cls') →
  _config_cache cls' !! (config_path, conf_type)
  = Some (CacheEntry (getmtime w config_path) (config f))
  ∧ _tree_cache cls' !! root f = Some (tree f).
Proof.
  intros H. apply __init__ok in H as (cls1 & m & s & Hc & Hm & Hroot & Hs & Hr & Ht).
  apply _get_tree_entry in Ht as [Ht ->].
  by apply _get_config_entry in Hc as [_ ?].
Qed.

(** X6. A facade that was constructed holds what the caches hold: its
    configuration is the entry of its config path and kind, its tree is
    the entry of its root, and its root is an absolute path when the
    working directory is. *)
Theorem facade_in_caches w config_path conf_type required_keys force_refresh cls
    f cls' :
  __init__ json_load w config_path conf_type required_keys force_refresh cls
  = (Ok f, cls') →
  _config_cache cls' !! (config_path, conf_type)
  = Some (CacheEntry (getmtime w config_path) (config f))
  ∧ _tree_cache cls' !! root f = Some (tree f)
  ∧ (posixpath.isabs (getcwd w) = true → posixpath.isabs (root f) = true).
Proof.
  intros H. destruct (__init__entries _ _ _ _ _ _ _ _ H) as [Hce Hte].
  apply __init__ok in H as (cls1 & m & s & Hc & Hm & Hroot & Hs & Hr & Ht).
  split_and!; [done|done|].
  intros Hcwd. rewrite Hr, abspath_absolutize.
    destruct (normpath_abs _ (absolutize_abs _ s Hcwd)) as (t & -> & _). done.
Qed.

(** X7. With [force_refresh] the constructor always parses the config
    file anew: the configuration of the facade is what [load_config]
    gives now, also when the cache held an entry with the file's current
    modification time; and an error of [load_config] is the constructor's. *)
Theorem force_refresh_reloads w config_path conf_type required_keys cls :
  (∀ f cls',
     __init__ json_load w config_path conf_type required_keys true cls = (Ok f, cls') →
     load_config json_load w config_path conf_type required_keys = Ok (config f))
  ∧ (∀ e,
       path_exists w config_path = true →
       load_config json_load w config_path conf_type required_keys = Raise e →
       __init__ json_load w config_path conf_type required_keys true cls
       = (Raise e, after_refresh config_path true cls)).
Proof.
  assert (_config_cache (after_refresh config_path true cls)
            !! (config_path, conf_type) = None) as Hnone.
  { simpl. apply map_lookup_filter_None. right. intros x _. simpl. by intros []. }
  split.
  - intros f cls' H. apply __init__ok in H as (cls1 & m & s & Hc & _).
    destruct (_get_config_entry _ _ _ _ _ _ _ Hc) as [Hex _].
    rewrite _get_config_reload in Hc by auto. unfold reloaded in Hc.
    destruct (load_config _ _ _ _ _); by simplify_eq.
  - intros e Hex Hl. eapply __init__not_loaded.
    rewrite _get_config_reload by auto. unfold reloaded. by rewrite Hl.
Qed.

(** X8. A second construction with the same config path and kind, in a
    snapshot with the same working directory where the config file has
    the same modification time, gives the same facade and leaves the
    caches alone: the configuration and the tree are shared through the
    caches, whatever changed in the files or in the tree below the root. *)
Theorem constructor_repeat w w' config_path conf_type required_keys required_keys'
    force_refresh cls f cls' :
  __init__ json_load w config_path conf_type required_keys force_refresh cls
  = (Ok f, cls') →
  path_exists w' config_path = true →
  getmtime w' config_path = getmtime w config_path →
  getcwd w' = getcwd w →
  __init__ json_load w' config_path conf_type required_keys' false cls'
  = (Ok f, cls').
Proof.
  intros Hinit Hex Hm Hcwd.
  destruct (__init__entries _ _ _ _ _ _ _ _ Hinit) as [Hce Hte].
  apply __init__ok in Hinit as (cls1 & m & s & _ & Hcf & Hroot & Hs & Hr & _).
  assert (_get_config json_load w' config_path conf_type required_keys'
            (after_refresh config_path false cls') = (Ok (config f), cls')) as Hc.
  { simpl. by rewrite (_get_config_hit _ _ _ _ _ _ _ Hex Hce). }
  rewrite (__init__loaded _ _ _ _ _ _ _ _ _ Hc), Hcf.
  unfold get_value. rewrite Hroot.
  destruct s as [|a s]; [done|]. simpl. rewrite Hcwd, <- Hcf, <- Hr.
  unfold built_or_fetched. rewrite Hte. by destruct f.
Qed.

(** X9. In a legal snapshot, every operation keeps the tree cache a cache
    of scanned indexes, and the tree a request or a construction returns
    is a scanned index. *)
Theorem trees_scanned_kept w cls :
  legal_world w → trees_scanned cls →
  (∀ path conf_type required_keys outcome cls',
     _get_config json_load w path conf_type required_keys cls = (outcome, cls') →
     trees_scanned cls')
  ∧ (∀ root_abs outcome cls',
       _get_tree w root_abs cls = (outcome, cls') →
       trees_scanned cls' ∧ ∀ tree, outcome = Ok tree → scanned_tree tree)
  ∧ (∀ config_path root, trees_scanned (invalidate_caches w config_path root cls).2)
  ∧ (∀ config_path conf_type required_keys force_refresh outcome cls',
       __init__ json_load w config_path conf_type required_keys force_refresh cls
       = (outcome, cls') →
       trees_scanned cls' ∧ ∀ f, outcome = Ok f → scanned_tree (tree f)).
Proof.
  intros Hw Hcls.
  assert (∀ c root_abs outcome cls',
            trees_scanned c → _get_tree w root_abs c = (outcome, cls') →
            trees_scanned cls' ∧ ∀ tree, outcome = Ok tree → scanned_tree tree)
    as Htree.
  { intros c root_abs outcome cls' Hc. rewrite _get_tree_spec.
    unfold built_or_fetched.
    destruct (_tree_cache c !! root_abs) as [t|] eqn:E.
    - intros [= <- <-]. split; [done|]. intros tree [= <-]. by apply (Hc _ _ E).
    - destruct (tree_scan w root_abs) as [t|e] eqn:Es; intros [= <- <-].
      + assert (scanned_tree t) as Ht by by exists w, root_abs.
        split; [|by intros tree [= <-]].
        unfold trees_scanned. simpl. by apply map_Forall_insert_2.
      + split; [done|]. by intros. }
  assert (∀ c path conf_type required_keys outcome cls',
            trees_scanned c →
            _get_config json_load w path conf_type required_keys c = (outcome, cls') →
            trees_scanned cls') as Hconf.
  { intros c path conf_type required_keys outcome cls' Hc H.
    destruct outcome;
      [apply _get_config_ok in H as [-> | [_ ->]]|apply _get_config_raise in H as ->];
      done. }
  assert (∀ p force, trees_scanned (after_refresh p force cls)) as Hrefresh.
  { intros p []; [|done]. done. }
  split_and!.
  - intros *. by apply Hconf.
  - intros *. by apply Htree.
  - intros [p|] [r|]; unfold trees_scanned; simpl;
      first [done | by apply map_Forall_delete | apply map_Forall_empty].
  - intros config_path conf_type required_keys force_refresh outcome cls'.
    destruct (_get_config json_load w config_path conf_type required_keys
                (after_refresh config_path force_refresh cls))
      as [[cfg|e] cls1] eqn:Hc.
    + pose proof (Hconf _ _ _ _ _ _ (Hrefresh _ _) Hc) as H1.
      rewrite (__init__loaded _ _ _ _ _ _ _ _ _ Hc).
      destruct (get_value cfg "root") as [v|e]; [|by intros [= <- <-]].
      destruct (truthy v); [|by intros [= <- <-]].
      destruct (abspath_value w v) as [r|e]; [|by intros [= <- <-]].
      rewrite <- _get_tree_spec.
      destruct (_get_tree w r cls1) as [[t|e] cls2] eqn:Hg.
      * destruct (Htree _ _ _ _ H1 Hg) as [H2 H3]. intros [= <- <-].
        split; [done|]. intros f [= <-]. simpl. by apply H3.
      * destruct (Htree _ _ _ _ H1 Hg) as [H2 _]. by intros [= <- <-].
    + rewrite (__init__not_loaded _ _ _ _ _ _ _ _ _ Hc). intros [= <- <-].
      split; [apply Hrefresh|done].
Qed.

End cache_composition.

(** ** Further properties of the configuration loader *)

Section config_loader.

Context (json_load : string → result pyval).

Lemma split1_first c k v :
  Str.count c k = 0 → Str.split1 c (k +:+ String c v) = [k; v].
Proof.
  induction k as [|a k IH]; intros Hc.
  - change ("" +:+ String c v) with (String c v). simpl.
    by rewrite bool_decide_eq_true_2.
  - simpl in Hc. case_bool_decide; [done|]. rewrite append_cons. simpl.
    rewrite bool_decide_eq_false_2 by done. by rewrite IH.
Qed.

Lemma split1_two c s k v :
  Str.split1 c s = [k; v] → s = k +:+ String c v ∧ Str.count c k = 0.
Proof.
  revert k. induction s as [|a s IH]; intros k; [done|]. simpl.
  case_bool_decide as Ha.
  - intros [= <- <-]. by subst.
  - destruct (Str.split1 c s) as [|h [|h' [|]]] eqn:E; try done.
    intros [= <- <-]. destruct (IH h eq_refl) as [-> Hc]. split; [done|].
    simpl. by rewrite bool_decide_eq_false_2.
Qed.

Lemma split1_length c s : length (Str.split1 c s) ≤ 2.
Proof.
  induction s as [|a s IH]; simpl; [lia|].
  case_bool_decide; [simpl; lia|].
  destruct (Str.split1 c s); simpl in *; lia.
Qed.

Lemma split1_mem c s : Str.mem c s = true → ∃ k v, Str.split1 c s = [k; v].
Proof.
  unfold Str.mem. rewrite negb_true_iff, Nat.eqb_neq.
  induction s as [|a s IH]; [done|]. simpl.
  case_bool_decide; [by eauto|]. intros Hc.
  destruct IH as (k & v & ->); [lia|]. by eauto.
Qed.

Lemma mem_first c k v : Str.mem c (k +:+ String c v) = true.
Proof.
  unfold Str.mem. rewrite negb_true_iff, Nat.eqb_neq, count_app. simpl.
  rewrite bool_decide_eq_true_2 by done. lia.
Qed.

(** What one line does to the configuration. *)
Lemma load_config_step_assigns config line key value :
  assigns line key value →
  load_config_step config line = Ok (<[key := PStr value]> config).
Proof.
  intros (kt & vt & Hs & Hc & Hh & -> & ->). unfold load_config_step.
  rewrite Hh, Hs. change (kt +:+ "=" +:+ vt) with (kt +:+ String "=" vt).
  rewrite split1_first by done.
  by destruct kt.
Qed.

Lemma load_config_step_ok config line config' :
  load_config_step config line = Ok config' →
  (config' = config ∧ ∀ key value, ¬ assigns line key value)
  ∨ ∃ key value, assigns line key value ∧ config' = <[key := PStr value]> config.
Proof.
  unfold load_config_step.
  destruct (negb (Str.is_empty (Str.strip line))) eqn:He; cbn [andb].
  2:{ intros ?; simplify_eq. left. split; [done|].
      intros key value (kt & vt & Hs & _). rewrite Hs in He. by destruct kt. }
  destruct (Str.startswith "#" (Str.strip line)) eqn:Hh; cbn [negb].
  { intros ?; simplify_eq. left. split; [done|].
    intros key value (kt & vt & _ & _ & Hh' & _). congruence. }
  destruct (Str.split1 "=" (Str.strip line)) as [|k [|v [|]]] eqn:E; try done.
  intros ?; simplify_eq. right. exists (Str.strip k), (Str.strip v). split; [|done].
  apply split1_two in E as [Hs Hc]. by exists k, v.
Qed.

Lemma assigns_not_malformed line key value :
  assigns line key value → ¬ malformed_line line.
Proof.
  intros (kt & vt & Hs & _) (_ & _ & Hm). rewrite Hs in Hm.
  change (kt +:+ "=" +:+ vt) with (kt +:+ String "=" vt) in Hm.
  by rewrite mem_first in Hm.
Qed.

Lemma load_config_step_well_formed config line :
  ¬ malformed_line line → ∃ config', load_config_step config line = Ok config'.
Proof.
  intros Hm. unfold load_config_step.
  destruct (negb (Str.is_empty (Str.strip line))) eqn:He; cbn [andb]; [|by eauto].
  destruct (Str.startswith "#" (Str.strip line)) eqn:Hh; cbn [negb]; [by eauto|].
  destruct (Str.mem "=" (Str.strip line)) eqn:Hmem.
  - apply split1_mem in Hmem as (k & v & ->). by eauto.
  - destruct Hm. split_and!; [|done|done]. by destruct (Str.strip line).
Qed.

Lemma load_config_lines_well_formed config lines :
  ¬ Exists malformed_line lines → ∃ config', load_config_lines config lines = Ok config'.
Proof.
  revert config. induction lines as [|line lines IH]; intros config Hm; [by eexists|].
  rewrite Exists_cons in Hm.
  destruct (load_config_step_well_formed config line) as [c' Hc']; [tauto|].
  simpl. rewrite Hc'. simpl. apply IH. tauto.
Qed.

Lemma load_config_key_value w path mtime content :
  at_path w !! path = Some (RegularFile mtime content) →
  load_config json_load w path KEY_VALUE None
  = PDict <$> load_config_lines ∅ (file_lines content).
Proof.
  intros Hf. unfold load_config, path_exists, read_text. rewrite Hf.
  rewrite bool_decide_eq_true_2 by done. simpl.
  by destruct (load_config_lines _ _).
Qed.

(** X10. A key-value file loads (no keys required) exactly when none of
    its lines is malformed: every line is blank, a comment, or holds [=]. *)
Theorem key_value_loads_iff w path mtime content :
  at_path w !! path = Some (RegularFile mtime content) →
  (∃ config, load_config json_load w path KEY_VALUE None = Ok config)
  ↔ ¬ Exists malformed_line (file_lines content).
Proof.
  intros Hf. rewrite (load_config_key_value _ _ _ _ Hf). split.
  - intros [config Hc] Hm.
    by rewrite (load_config_lines_malformed _ _ Hm) in Hc.
  - intros Hm. destruct (load_config_lines_well_formed ∅ _ Hm) as [c ->].
    by exists (PDict c).
Qed.

Lemma load_config_lines_app config l1 l2 :
  load_config_lines config (l1 ++ l2)
  = (c ← load_config_lines config l1; load_config_lines c l2).
Proof.
  revert config. induction l1 as [|x l1 IH]; intros config; [done|]. simpl.
  destruct (load_config_step config x) as [c|e]; simpl; [apply IH|done].
Qed.

(** Lines that do not assign a key leave its entry alone. *)
Lemma load_config_lines_keep config lines config' key :
  load_config_lines config lines = Ok config' →
  Forall (λ line, ∀ value, ¬ assigns line key value) lines →
  config' !! key = config !! key.
Proof.
  revert config. induction lines as [|line lines IH]; intros config.
  - simpl. by intros [= <-].
  - simpl. destruct (load_config_step config line) as [c|e] eqn:E; [|done]. simpl.
    intros Hl [Hline Hlines]%Forall_cons. rewrite (IH _ Hl Hlines).
    apply load_config_step_ok in E as [[-> _]|(k & v & Ha & ->)]; [done|].
    apply lookup_insert_ne. intros ->. by apply (Hline v).
Qed.

(** Every entry comes from a line that assigns it. *)
Lemma load_config_lines_origin config lines config' key x :
  load_config_lines config lines = Ok config' → config' !! key = Some x →
  config !! key = Some x
  ∨ ∃ line value, line ∈ lines ∧ assigns line key value ∧ x = PStr value.
Proof.
  revert config. induction lines as [|line lines IH]; intros config.
  - simpl. intros [= <-]. by left.
  - simpl. destruct (load_config_step config line) as [c|e] eqn:E; [|done]. simpl.
    intros Hl Hx. destruct (IH _ Hl Hx) as [Hc|(l & v & Hin & Ha & ->)].
    + apply load_config_step_ok in E as [[-> _]|(k & v & Ha & ->)]; [by left|].
      destruct (decide (k = key)) as [->|Hne].
      * rewrite lookup_insert_eq in Hc. simplify_eq. right.
        exists line, v. split_and!; [by left|done|done].
      * rewrite lookup_insert_ne in Hc by done. by left.
    + right. exists l, v. split_and!; [by right|done|done].
Qed.

Lemma count_lstrip_le p c s : Str.count c (Str.lstrip_with p s) ≤ Str.count c s.
Proof.
  induction s as [|a s IH]; [done|]. simpl.
  destruct (p a); [lia|done].
Qed.

Lemma count_rstrip_le p c s : Str.count c (Str.rstrip_with p s) ≤ Str.count c s.
Proof.
  induction s as [|a s IH]; [done|]. simpl.
  destruct (Str.is_empty _ && p a); simpl; lia.
Qed.

Lemma count_strip_le c s : Str.count c (Str.strip s) ≤ Str.count c s.
Proof.
  unfold Str.strip, Str.strip_with.
  etrans; [apply count_lstrip_le|apply count_rstrip_le].
Qed.

(** [strip] is idempotent. *)
Lemma strip_strip s : Str.strip (Str.strip s) = Str.strip s.
Proof.
  destruct (Str.strip s) as [|a t] eqn:E; [done|]. rewrite <- E.
  apply stripped_fixed, strip_stripped. unfold Str.strip in E. by rewrite E.
Qed.

(** X11. In a configuration loaded from a key-value file, every value is
    a string; keys and values carry no white space at their ends, a key
    holds no [=], and each entry is assigned by a line of the file. *)
Theorem key_value_entries w path mtime content config key x :
  at_path w !! path = Some (RegularFile mtime content) →
  load_config json_load w path KEY_VALUE None = Ok (PDict config) →
  config !! key = Some x →
  ∃ value,
    x = PStr value
    ∧ Str.strip value = value ∧ Str.strip key = key ∧ Str.count "=" key = 0
    ∧ ∃ line, line ∈ file_lines content ∧ assigns line key value.
Proof.
  intros Hf Hl Hx. rewrite (load_config_key_value _ _ _ _ Hf) in Hl.
  destruct (load_config_lines ∅ (file_lines content)) as [c|e] eqn:Hlines; [|done].
  injection Hl as ->.
  destruct (load_config_lines_origin _ _ _ _ _ Hlines Hx)
    as [Hc|(line & v & Hin & Ha & ->)]; [by rewrite lookup_empty in Hc|].
  exists v. split; [done|].
  pose proof Ha as (kt & vt & _ & Hc & _ & -> & ->).
  split_and!; [apply strip_strip|apply strip_strip| |by eauto].
  pose proof (count_strip_le "=" kt). lia.
Qed.

(** X12. The last line that assigns a key decides its value: a line that
    assigns [value] to [key] and is followed by no line assigning [key]
    gives the loaded configuration the entry [key ↦ value]; a key that no
    line assigns has no entry. *)
Theorem key_value_last_wins w path mtime content config key :
  at_path w !! path = Some (RegularFile mtime content) →
  load_config json_load w path KEY_VALUE None = Ok (PDict config) →
  (∀ before line after value,
     file_lines content = before ++ line :: after →
     assigns line key value →
     Forall (λ l, ∀ v, ¬ assigns l key v) after →
     config !! key = Some (PStr value))
  ∧ (Forall (λ l, ∀ v, ¬ assigns l key v) (file_lines content) →
     config !! key = None).
Proof.
  intros Hf Hl. rewrite (load_config_key_value _ _ _ _ Hf) in Hl.
  destruct (load_config_lines ∅ (file_lines content)) as [c|e] eqn:Hc; [|done].
  injection Hl as ->. rename Hc into Hl. split.
  - intros before line after value Hlines Ha Hafter.
    rewrite Hlines, load_config_lines_app in Hl.
    destruct (load_config_lines ∅ before) as [c1|e]; [|done]. simpl in Hl.
    rewrite (load_config_step_assigns _ _ _ _ Ha) in Hl. simpl in Hl.
    rewrite (load_config_lines_keep _ _ _ _ Hl Hafter). apply lookup_insert_eq.
  - intros Hnone. by rewrite (load_config_lines_keep _ _ _ _ Hl Hnone).
Qed.

Lemma startswith_app p s : Str.startswith p (p +:+ s) = true.
Proof.
  induction p as [|a p IH]; [done|]. rewrite append_cons. simpl.
  by rewrite bool_decide_eq_true_2, IH.
Qed.

Lemma startswith_decompose p s : Str.startswith p s = true → ∃ r, s = p +:+ r.
Proof.
  revert s. induction p as [|a p IH]; intros s; [by exists s|].
  destruct s as [|b s]; [done|]. simpl.
  intros [Hab Hs]%andb_true_iff. apply bool_decide_eq_true in Hab as ->.
  destruct (IH s Hs) as [r ->]. by exists r.
Qed.

Lemma contains_eq sub s :
  Str.contains sub s
  = Str.startswith sub s
    || match s with
       | EmptyString => false
       | String _ t => Str.contains sub t
       end.
Proof. by destruct s. Qed.

(** [sub in s] holds exactly when [s] reads [pre + sub + post]. *)
Lemma contains_spec sub s :
  Str.contains sub s = true ↔ ∃ pre post, s = pre +:+ sub +:+ post.
Proof.
  split.
  - induction s as [|a s IH]; rewrite contains_eq.
    + rewrite orb_false_r. intros [r Hr]%startswith_decompose. by exists "", r.
    + intros [H|H]%orb_true_iff.
      * apply startswith_decompose in H as [r Hr]. by exists "", r.
      * destruct (IH H) as (pre & post & ->). by exists (String a pre), post.
  - intros (pre & post & ->). induction pre as [|a pre IH]; rewrite contains_eq.
    + change ("" +:+ sub +:+ post) with (sub +:+ post).
      by rewrite startswith_app.
    + rewrite append_cons, IH. apply orb_true_r.
Qed.

Lemma existsb_str key l :
  existsb (λ v, match v with
                | PStr s => bool_decide (s = key)
                | _ => false
                end) l = true
  ↔ PStr key ∈ l.
Proof.
  induction l as [|v l IH]; simpl.
  - split; [done|]. by intros ?%elem_of_nil.
  - rewrite orb_true_iff, elem_of_cons, IH.
    assert (match v with
            | PStr s => bool_decide (s = key)
            | _ => false
            end = true ↔ PStr key = v) as ->; [|done].
    destruct v; try done. rewrite bool_decide_eq_true. split; congruence.
Qed.

Lemma contains_key_spec key config b :
  contains_key key config = Ok b → (b = true ↔ has_key config key).
Proof.
  destruct config as [s| | | | |l|m]; simpl; try done; intros [= <-].
  - rewrite contains_spec. split.
    + intros (pre & post & ->). constructor.
    + inversion 1; subst. by eexists _, _.
  - rewrite existsb_str. split; [by constructor|]. by inversion 1.
  - rewrite bool_decide_eq_true. split; [by constructor|]. by inversion 1.
Qed.

Lemma contains_key_container key config :
  container config → ∃ b, contains_key key config = Ok b.
Proof. destruct config; simpl; try done; by eexists. Qed.

Lemma contains_key_other key config :
  ¬ container config →
  contains_key key config
  = Raise (TypeError ("argument of type '" +:+ type_name config
                      +:+ "' is not iterable")).
Proof. destruct config; simpl; try done; by intros []. Qed.

#[global] Instance has_key_dec config key : Decision (has_key config key).
Proof.
  destruct (contains_key key config) as [[|]|e] eqn:E.
  - left. by apply (contains_key_spec _ _ _ E).
  - right. intros H. by apply (contains_key_spec _ _ _ E) in H.
  - right. intros H. inversion H; subst; discriminate E.
Defined.

Lemma missing_from_container required_keys config :
  container config →
  missing_from required_keys config
  = Ok (filter (λ key, ¬ has_key config key) required_keys).
Proof.
  intros Hc. induction required_keys as [|key rk IH]; [done|].
  simpl. rewrite IH. destruct (contains_key_container key config Hc) as [b Hb].
  rewrite Hb. simpl. rewrite filter_cons.
  pose proof (contains_key_spec _ _ _ Hb) as Hspec.
  destruct b; destruct (decide _) as [Hn|Hn]; try done.
  - destruct Hn. by apply Hspec.
  - destruct Hn. intros H. by apply Hspec in H.
Qed.

Lemma missing_from_dict required_keys m :
  missing_from required_keys (PDict m) = Ok (missing_keys required_keys m).
Proof.
  induction required_keys as [|key rk IH]; [done|].
  simpl. rewrite IH. simpl. unfold missing_keys. rewrite filter_cons.
  destruct (m !! key) eqn:E.
  - rewrite bool_decide_eq_true_2 by done. by rewrite decide_False.
  - rewrite bool_decide_eq_false_2 by (by intros [? ?]). by rewrite decide_True.
Qed.

Lemma missing_from_other required_keys config :
  ¬ container config → required_keys ≠ [] →
  missing_from required_keys config
  = Raise (TypeError ("argument of type '" +:+ type_name config
                      +:+ "' is not iterable")).
Proof.
  intros Hc Hrk. destruct required_keys as [|key rk]; [done|].
  simpl. by rewrite (contains_key_other _ _ Hc).
Qed.

Lemma filter_nil_Forall {A} (P : A → Prop) `{∀ x, Decision (P x)} (l : list A) :
  filter (λ x, ¬ P x) l = [] ↔ Forall P l.
Proof.
  induction l as [|x l IH]; [done|]. rewrite filter_cons, Forall_cons.
  destruct (decide (¬ P x)) as [Hx|Hx].
  - split; [done|]. by intros [? _].
  - rewrite IH. apply dec_stable in Hx. tauto.
Qed.

Lemma missing_keys_nil {V} required_keys (config : gmap string V) :
  missing_keys required_keys config = []
  ↔ Forall (λ key, is_Some (config !! key)) required_keys.
Proof.
  unfold missing_keys. induction required_keys as [|k ks IH]; [done|].
  rewrite filter_cons, Forall_cons.
  destruct (decide (config !! k = None)) as [Hk|Hk].
  - split; [done|]. intros [[? ?] _]. congruence.
  - rewrite IH. split; [|tauto]. intros H. split; [|done].
    by destruct (config !! k); [eexists|].
Qed.

(** The outcome of the check of the required keys, from the keys found
    missing. *)
Lemma check_missing {config : pyval} prefix (P : string → Prop)
    `{∀ key, Decision (P key)} required_keys :
  match filter (λ key, ¬ P key) required_keys with
  | [] => Ok config
  | _ :: _ =>
      Raise (KeyError (prefix +:+ Str.join ", "
                                    (filter (λ key, ¬ P key) required_keys)))
  end
  = if decide (Forall P required_keys) then Ok config
    else Raise (KeyError (prefix +:+ Str.join ", "
                                       (filter (λ key, ¬ P key) required_keys))).
Proof.
  pose proof (filter_nil_Forall P required_keys) as Hm.
  destruct (decide _) as [Hall|Hnot].
  - by rewrite (proj2 Hm Hall).
  - destruct (filter _ required_keys) eqn:E; [|done]. destruct Hnot. by apply Hm.
Qed.

Lemma has_key_dict_iff m key : has_key (PDict m) key ↔ is_Some (m !! key).
Proof. split; [by inversion 1|by constructor]. Qed.

(** X13. Required keys are checked on the parsed value and change nothing
    else.  When the load without required keys gives a value: the
    key-value kind always gives a dictionary; for a dictionary the load
    with the keys gives the same dictionary if every required key has an
    entry, and else raises the missing-key error that names the keys
    without an entry, in the order they were required; the same holds for
    a JSON document that is a list or a string, with [key in config]
    testing for an element or a substring; for any other JSON value and a
    non-empty list of keys the test itself raises a type error; an empty
    list of keys is no check.  An error of the load without required keys
    is the error of the load with them. *)
Theorem required_keys_checked w path conf_type required_keys :
  (∀ config,
     load_config json_load w path conf_type None = Ok config →
     (conf_type = KEY_VALUE → ∃ m, config = PDict m)
     ∧ (∀ m, config = PDict m →
        load_config json_load w path conf_type (Some required_keys)
        = if decide (Forall (λ key, is_Some (m !! key)) required_keys)
          then Ok config
          else Raise (KeyError
                        (missing_keys_prefix conf_type
                         +:+ Str.join ", "
                               (filter (λ key, m !! key = None) required_keys))))
     ∧ (container config →
        load_config json_load w path conf_type (Some required_keys)
        = if decide (Forall (has_key config) required_keys)
          then Ok config
          else Raise (KeyError
                        (missing_keys_prefix conf_type
                         +:+ Str.join ", "
                               (filter (λ key, ¬ has_key config key)
                                  required_keys))))
     ∧ (¬ container config → required_keys ≠ [] →
        load_config json_load w path conf_type (Some required_keys)
        = Raise (TypeError ("argument of type '" +:+ type_name config
                            +:+ "' is not iterable")))
     ∧ (required_keys = [] →
        load_config json_load w path conf_type (Some required_keys) = Ok config))
  ∧ (∀ e,
       load_config json_load w path conf_type None = Raise e →
       load_config json_load w path conf_type (Some required_keys) = Raise e).
Proof.
  assert (∀ (m : gmap string pyval) (config : pyval),
            match missing_keys required_keys m with
            | [] => Ok config
            | missing =>
                Raise (KeyError (missing_keys_prefix conf_type
                                 +:+ Str.join ", " missing))
            end
            = if decide (Forall (λ key, is_Some (m !! key)) required_keys)
              then Ok config
              else Raise (KeyError
                            (missing_keys_prefix conf_type
                             +:+ Str.join ", "
                                   (filter (λ key, m !! key = None)
                                      required_keys)))) as Hdict.
  { intros m config. pose proof (missing_keys_nil required_keys m) as Hm.
    destruct (decide _) as [Hall|Hnot].
    - by rewrite (proj2 Hm Hall).
    - destruct (missing_keys required_keys m) eqn:E;
        [|by rewrite <- E].
      destruct Hnot. by apply Hm. }
  assert (∀ config : pyval,
            container config →
            (missing ← missing_from required_keys config;
             match missing with
             | [] => Ok config
             | _ => Raise (KeyError (missing_keys_prefix conf_type
                                     +:+ Str.join ", " missing))
             end)
            = if decide (Forall (has_key config) required_keys)
              then Ok config
              else Raise (KeyError
                            (missing_keys_prefix conf_type
                             +:+ Str.join ", "
                                   (filter (λ key, ¬ has_key config key)
                                      required_keys)))) as Hcont.
  { intros config Hc. rewrite (missing_from_container _ _ Hc). simpl.
    rewrite <- (check_missing _ (has_key config)).
    by destruct (filter _ required_keys). }
  unfold load_config, load_json.
  destruct (path_exists w path); cbn [negb]; [|by split].
  destruct conf_type.
  - destruct (read_text w path) as [content|e]; simpl; [|by split].
    destruct (load_config_lines ∅ (file_lines content)) as [c|e]; simpl;
      [|by split].
    split; [|done]. intros config [= <-]. split_and!.
    + by eexists.
    + intros m [= <-]. apply (Hdict c).
    + intros Hc. specialize (Hcont (PDict c) Hc).
      rewrite missing_from_dict in Hcont. simpl in Hcont.
      etrans; [|exact Hcont]. by destruct (missing_keys required_keys c).
    + by intros [].
    + by intros ->.
  - destruct (read_text w path) as [content|e]; simpl; [|by split].
    destruct (json_load _) as [c|e]; simpl; [|by split].
    split; [|done]. intros config [= <-]. split_and!.
    + done.
    + intros m ->. rewrite missing_from_dict. simpl.
      etrans; [|exact (Hdict m (PDict m))].
      by destruct (missing_keys required_keys m).
    + intros Hc. etrans; [|exact (Hcont c Hc)].
      by destruct (missing_from required_keys c) as [[|]|].
    + intros Hc Hrk. by rewrite (missing_from_other _ _ Hc Hrk).
    + by intros ->.
Qed.

End config_loader.

(** ** Further properties of the SQL decoder *)

Section sql_decoder.

Lemma sql_commands_spec content : sql_commands content = sql_statements_spec content.
Proof. by rewrite sql_commands_finish, load_sql_loop. Qed.

Lemma sql_lines_stripped content :
  Forall (stripped Str.is_space) (sql_lines content).
Proof.
  unfold sql_lines. apply Forall_forall. intros l [[_ Hne] Hin]%list_elem_of_filter.
  apply list_elem_of_fmap in Hin as (raw & -> & _).
  apply strip_stripped. done.
Qed.

Lemma sql_groups_concat lines : concat (sql_groups lines) = lines.
Proof.
  induction lines as [|l lines IH]; [done|]. simpl.
  destruct (Str.endswith_char ";" l); simpl; [by rewrite IH|].
  destruct (sql_groups lines) as [|g gs]; simpl in *; by rewrite <- IH.
Qed.

Lemma sql_groups_nonempty lines : Forall (λ g, g ≠ []) (sql_groups lines).
Proof.
  induction lines as [|l lines IH]; [done|]. simpl.
  destruct (Str.endswith_char ";" l); [by constructor|].
  destruct (sql_groups lines) as [|g gs]; [by repeat constructor|].
  apply Forall_cons in IH as [_ ?]. by constructor.
Qed.

(** Every group but the last ends with a line that ends with [;]. *)
Lemma sql_groups_closed lines i g :
  sql_groups lines !! i = Some g → S i < length (sql_groups lines) →
  ∃ l, last g = Some l ∧ Str.endswith_char ";" l = true.
Proof.
  revert i g. induction lines as [|l lines IH]; intros i g; [done|]. simpl.
  destruct (Str.endswith_char ";" l) eqn:El.
  - destruct i as [|i]; simpl.
    + intros [= <-] _. by exists l.
    + intros Hg Hi. apply (IH i g Hg). lia.
  - destruct (sql_groups lines) as [|g' gs] eqn:Eg; simpl.
    + destruct i; simpl; [lia|done].
    + destruct i as [|i]; simpl.
      * intros [= <-] Hi. destruct (IH 0 g' eq_refl) as (l' & Hl' & He).
        { simpl. lia. }
        exists l'. split; [|done]. rewrite last_cons, Hl'. done.
      * intros Hg Hi. apply (IH (S i) g Hg). simpl. lia.
Qed.

Lemma join_app sep l1 l2 :
  l1 ≠ [] → l2 ≠ [] →
  Str.join sep (l1 ++ l2) = Str.join sep l1 +:+ sep +:+ Str.join sep l2.
Proof.
  intros H1 H2. induction l1 as [|x l1 IH]; [done|].
  destruct l1 as [|y l1].
  - destruct l2; [done|]. done.
  - change ((x :: y :: l1) ++ l2) with (x :: (y :: l1) ++ l2).
    change (Str.join sep (x :: (y :: l1) ++ l2))
      with (x +:+ sep +:+ Str.join sep ((y :: l1) ++ l2)).
    rewrite IH by done. rewrite join_cons. by rewrite !append_assoc.
Qed.

Lemma join_concat sep gs :
  Forall (λ g, g ≠ []) gs →
  Str.join sep (Str.join sep <$> gs) = Str.join sep (concat gs).
Proof.
  induction 1 as [|g gs Hg Hgs IH]; [done|].
  destruct gs as [|g' gs]; [simpl; by rewrite app_nil_r|].
  rewrite fmap_cons. change (Str.join sep <$> g' :: gs)
    with (Str.join sep g' :: (Str.join sep <$> gs)).
  rewrite join_cons. change (Str.join sep g' :: (Str.join sep <$> gs))
    with (Str.join sep <$> g' :: gs).
  rewrite IH. simpl concat.
  rewrite (join_app sep g (g' ++ concat gs)); [done|done|].
  apply Forall_cons in Hgs as [? _]. by destruct g'.
Qed.

Lemma last_is_Some s : s ≠ "" → is_Some (Str.last s).
Proof.
  induction s as [|a s IH]; [done|]. intros _. simpl.
  destruct s; [by eexists|]. by apply IH.
Qed.

Lemma last_join sep g l :
  last g = Some l → l ≠ "" → Str.last (Str.join sep g) = Str.last l.
Proof.
  intros Hl Hne. induction g as [|x g IH]; [done|].
  destruct g as [|y g]; [simpl in Hl; by simplify_eq|].
  rewrite join_cons, <- append_assoc.
  change (last (x :: y :: g)) with (last (y :: g)) in Hl.
  specialize (IH Hl). rewrite last_app; [done|].
  intros EJ. rewrite EJ in IH. destruct (last_is_Some l Hne) as [c Hc].
  rewrite Hc in IH. done.
Qed.

(** X14. No statement [load_sql] returns is empty or has white space at
    its ends, and every statement but the last ends with [;]. *)
Theorem sql_statements_closed content :
  Forall (λ c, c ≠ "" ∧ Str.strip c = c) (sql_commands content)
  ∧ ∀ i c, sql_commands content !! i = Some c →
           S i < length (sql_commands content) →
           Str.endswith_char ";" c = true.
Proof.
  rewrite sql_commands_spec. unfold sql_statements_spec.
  pose proof (sql_lines_stripped content) as Hs.
  rewrite <- (sql_groups_concat (sql_lines content)) in Hs.
  pose proof (sql_groups_nonempty (sql_lines content)) as Hne.
  remember (sql_groups (sql_lines content)) as gs eqn:Egs.
  assert (Forall (λ g, g ≠ [] ∧ Forall (stripped Str.is_space) g) gs) as Hg.
  { apply List.Forall_concat in Hs. clear Egs.
    induction Hne as [|g gs Hg Hgs IH]; [done|].
    apply Forall_cons in Hs as [H1 H2]. constructor; [done|by apply IH]. }
  split.
  - apply Forall_fmap. eapply Forall_impl; [exact Hg|]. intros g [H1 H2]. simpl.
    pose proof (stripped_join _ " " g H1 H2) as Hj. split.
    + destruct Hj as [(a & t & -> & _) _]. done.
    + by apply stripped_fixed.
  - intros i c Hc Hi. rewrite length_fmap in Hi.
    apply list_lookup_fmap_Some in Hc as (g & -> & Hgi). subst gs.
    destruct (sql_groups_closed _ _ _ Hgi Hi) as (l & Hl & He).
    unfold Str.endswith_char in *. apply bool_decide_eq_true in He.
    apply bool_decide_eq_true. rewrite (last_join _ _ l); [done|done|].
    intros ->. done.
Qed.

(** X15. The decoder drops and reorders nothing of the lines it keeps:
    the statements joined by single spaces read as the kept lines (stripped,
    neither blank nor starting with [--]) joined by single spaces. *)
Theorem sql_text_kept content :
  Str.join " " (sql_commands content) = Str.join " " (sql_lines content).
Proof.
  rewrite sql_commands_spec. unfold sql_statements_spec.
  rewrite join_concat by apply sql_groups_nonempty.
  by rewrite sql_groups_concat.
Qed.

End sql_decoder.

(** ** Further properties of the indexer and the resolver *)

Section names.

Lemma rsplit_at_none c s : Str.count c s = 0 → Str.rsplit_at c s = ("", s).
Proof.
  induction s as [|a s IH]; [done|]. simpl.
  case_bool_decide; [done|]. intros Hc. by rewrite IH.
Qed.

Lemma rsplit_at_last c s f :
  Str.count c f = 0 → Str.rsplit_at c (s +:+ String c f) = (s +:+ String c "", f).
Proof.
  intros Hf. induction s as [|a s IH].
  - change ("" +:+ String c f) with (String c f). simpl.
    rewrite rsplit_at_none by done. simpl. by rewrite bool_decide_eq_true_2.
  - rewrite !append_cons. simpl. rewrite IH.
    by destruct (s +:+ String c "") eqn:E; [destruct s|].
Qed.

Lemma rstrip_snoc c s z :
  Str.last s = Some z → z ≠ c → Str.rstrip_char c (s +:+ String c "") = s.
Proof.
  intros Hl Hz. unfold Str.rstrip_char. induction s as [|a s IH]; [done|].
  rewrite append_cons. simpl. destruct s as [|b s].
  - simpl in *. simplify_eq. change ("" +:+ String c "") with (String c "").
    simpl. unfold Str.is_char. rewrite bool_decide_eq_true_2 by done. simpl.
    by rewrite bool_decide_eq_false_2.
  - rewrite IH by done. done.
Qed.

(** The base name and the directory of a relative path of legal names. *)
Lemma basename_join cs f :
  Forall (λ n, legal_name n = true) cs → legal_name f = true →
  posixpath.basename (Str.join "/" (cs ++ [f])) = f.
Proof.
  intros Hcs Hf. apply legal_name_spec in Hf as (_ & _ & _ & Hc).
  unfold posixpath.basename, posixpath.sep. destruct cs as [|c cs].
  - simpl. by rewrite rsplit_at_none.
  - rewrite join_snoc by done.
    change (Str.join "/" (c :: cs) +:+ "/" +:+ f)
      with (Str.join "/" (c :: cs) +:+ String "/" f).
    by rewrite rsplit_at_last.
Qed.

Lemma dirname_join cs f :
  Forall (λ n, legal_name n = true) cs → legal_name f = true →
  posixpath.dirname (Str.join "/" (cs ++ [f])) = Str.join "/" cs.
Proof.
  intros Hcs Hf. apply legal_name_spec in Hf as (_ & _ & _ & Hc).
  unfold posixpath.dirname, posixpath.sep. destruct cs as [|c cs].
  - simpl. by rewrite rsplit_at_none.
  - rewrite join_snoc by done.
    change (Str.join "/" (c :: cs) +:+ "/" +:+ f)
      with (Str.join "/" (c :: cs) +:+ String "/" f).
    rewrite rsplit_at_last by done. cbn [fst].
    destruct (stripped_join (Str.is_char "/") "/" (c :: cs) ltac:(done)
                (legal_stripped _ Hcs)) as [(a & t & E & Ha) (z & Hz1 & Hz2)].
    remember (Str.join "/" (c :: cs)) as J eqn:EJ. clear EJ.
    assert (Str.is_empty (J +:+ String "/" "") = false) as ->.
    { by rewrite E. }
    assert (Str.all_char "/" (J +:+ String "/" "") = false) as ->.
    { rewrite E, append_cons. unfold Str.all_char. simpl. by rewrite Ha. }
    cbn [negb andb]. apply (rstrip_snoc _ _ z); [done|].
    intros ->. unfold Str.is_char in Hz2. by rewrite bool_decide_eq_true_2 in Hz2.
Qed.

(** A trailing slash is dropped by [normpath]. *)
Lemma normpath_join_slash l :
  l ≠ [] → Forall (λ n, legal_name n = true) l →
  posixpath.normpath (Str.join "/" l +:+ "/") = Str.join "/" l.
Proof.
  intros Hl Hall.
  destruct (join_legal_first l Hl Hall) as (a & u & HJ & Ha).
  pose proof (split_join l Hl (legal_noslash _ Hall)) as Hsplit.
  remember (Str.join "/" l) as J eqn:EJ.
  unfold posixpath.normpath, posixpath.sep.
  change (J +:+ "/") with (J +:+ String "/" "").
  rewrite split_app_sep, Hsplit.
  assert (posixpath.initial_slashes (J +:+ String "/" "") = 0) as ->.
  { rewrite HJ. unfold posixpath.initial_slashes. rewrite append_cons. simpl.
    by rewrite bool_decide_eq_false_2. }
  rewrite fold_left_app, (norm_fold_legal 0 l []) by done.
  rewrite app_nil_l.
  change (fold_left (posixpath.norm_step 0) (Str.split "/" "") l) with l.
  rewrite <- EJ. change (Str.repeat_char "/" 0 +:+ J) with J.
  rewrite HJ. by rewrite append_cons.
Qed.

End names.

Section resolver.

Lemma tree_scan_entry w root_abs tree filename paths :
  legal_world w → tree_scan w root_abs = Ok tree → tree !! filename = Some paths →
  paths ≠ [] ∧ paths ≡ₚ paths_named w root_abs filename
  ∧ StronglySorted key_le paths.
Proof.
  intros Hw Hscan Hl. destruct (tree_scan_ok _ _ _ Hscan) as [Hroot He].
  destruct (tree_scan_entries w root_abs Hw Hroot He) as (index & Hi & Hidx).
  rewrite Hscan in Hi. injection Hi as <-.
  specialize (Hidx filename). by rewrite Hl in Hidx.
Qed.

(** The index in closed form: the sorted list of the paths of each name. *)
Lemma tree_scan_closed w root_abs tree filename :
  legal_world w → tree_scan w root_abs = Ok tree →
  tree !! filename
  = match paths_named w root_abs filename with
    | [] => None
    | paths => Some (merge_sort key_le paths)
    end.
Proof.
  intros Hw Hscan. destruct (tree_scan_ok _ _ _ Hscan) as [Hroot He].
  destruct (tree_scan_entries w root_abs Hw Hroot He) as (index & Hi & Hidx).
  rewrite Hscan in Hi. injection Hi as <-.
  specialize (Hidx filename). destruct (tree !! filename) as [paths|].
  - destruct Hidx as (Hne & Hp & Hs).
    destruct (paths_named w root_abs filename) as [|p ps] eqn:E.
    + by apply Permutation_nil_r in Hp.
    + f_equal. by apply sort_key_unique.
  - by rewrite Hidx.
Qed.

(** X16. The index depends only on which files lie under the root: two
    scans, of any roots in any legal snapshots, under which the same files
    lie (in whatever order the directories list them) give the same index. *)
Theorem index_of_files_only w w' root_abs root_abs' :
  legal_world w → legal_world w' →
  root_abs ≠ "" → path_exists w root_abs = true →
  root_abs' ≠ "" → path_exists w' root_abs' = true →
  files_below w root_abs ≡ₚ files_below w' root_abs' →
  tree_scan w root_abs = tree_scan w' root_abs'.
Proof.
  intros Hw Hw' Hr He Hr' He' Hfiles.
  destruct (tree_scan_entries w root_abs Hw Hr He) as (index & Hi & _).
  destruct (tree_scan_entries w' root_abs' Hw' Hr' He') as (index' & Hi' & _).
  rewrite Hi, Hi'. f_equal. apply map_eq. intros filename.
  rewrite (tree_scan_closed _ _ _ filename Hw Hi).
  rewrite (tree_scan_closed _ _ _ filename Hw' Hi').
  assert (paths_named w root_abs filename ≡ₚ paths_named w' root_abs' filename)
    as Hp by (unfold paths_named; by rewrite Hfiles).
  destruct (paths_named w root_abs filename) as [|p ps] eqn:E;
    destruct (paths_named w' root_abs' filename) as [|p' ps'] eqn:E'.
  - done.
  - by apply Permutation_nil_l in Hp.
  - by apply Permutation_nil_r in Hp.
  - f_equal. apply sort_key_unique.
    + by rewrite merge_sort_Permutation.
    + apply StronglySorted_merge_sort; apply _.
Qed.

Lemma tree_scan_has_entry w root_abs tree filename rp :
  legal_world w → tree_scan w root_abs = Ok tree →
  rp ∈ paths_named w root_abs filename →
  ∃ paths, tree !! filename = Some paths
           ∧ paths ≡ₚ paths_named w root_abs filename
           ∧ StronglySorted key_le paths.
Proof.
  intros Hw Hscan Hin. destruct (tree !! filename) as [paths|] eqn:Hl.
  - destruct (tree_scan_entry _ _ _ _ _ Hw Hscan Hl) as (_ & Hp & Hs). by eauto.
  - rewrite (tree_scan_closed _ _ _ filename Hw Hscan) in Hl.
    destruct (paths_named w root_abs filename); [by apply elem_of_nil in Hin|done].
Qed.

(** What [find] selects, read off the code. *)
Lemma find_rel_path_ok self name start rp :
  find_rel_path self name start = Ok rp →
  name ≠ ""
  ∧ ∃ paths,
      tree self !! posixpath.basename (posixpath.normpath name) = Some paths
      ∧ rp ∈ paths
      ∧ (effective_start name start = "" ∨ effective_start name start = "."
         ∨ under_prefix (Str.rstrip_char posixpath.sep (effective_start name start))
             rp = true).
Proof.
  unfold find_rel_path. destruct name as [|a name]; [done|]. simpl Str.is_empty.
  cbv iota. intros H. split; [done|].
  destruct (tree self !! _) as [[|first rest]|]; [done| |done].
  exists (first :: rest). split; [done|].
  destruct (Str.is_empty (effective_start (String a name) start)) eqn:Ee.
  - cbn [orb] in H. injection H as <-. split; [apply list_elem_of_here|]. left.
    by destruct (effective_start _ _).
  - cbn [orb] in H. case_bool_decide as Hd.
    + injection H as <-. split; [apply list_elem_of_here|]. by right; left.
    + destruct (List.find _ _) as [x|] eqn:Ef; [|done]. injection H as <-.
      apply find_some in Ef as [Hin Hu]. split; [by apply list_elem_of_In|].
      by right; right.
Qed.

(** X17. [find] only selects what the scan saw: the relative path of a
    file that lies under the scanned root and whose name is the base name
    of the normalized name; and, when there is a scope, one that is within
    the scope. *)
Theorem find_sound w root_abs self name start rp :
  legal_world w → tree_scan w root_abs = Ok (tree self) →
  find_rel_path self name start = Ok rp →
  ∃ x, x ∈ files_below w root_abs
       ∧ x.2 = posixpath.basename (posixpath.normpath name)
       ∧ rp = rel_path_of x
       ∧ (effective_start name start = "" ∨ effective_start name start = "."
          ∨ in_scope (effective_start name start) rp = true).
Proof.
  intros Hw Hscan Hfind.
  apply find_rel_path_ok in Hfind as (Hname & paths & Hl & Hin & Hscope).
  destruct (tree_scan_entry _ _ _ _ _ Hw Hscan Hl) as (_ & Hp & _).
  assert (scanned_tree (tree self)) as Ht by by exists w, root_abs.
  destruct (scanned_tree_lookup _ _ _ Ht Hl) as (_ & _ & _ & Hshape).
  rewrite Forall_forall in Hshape. destruct (Hshape rp Hin) as (a & t & Erp & Ha).
  rewrite Hp in Hin. unfold paths_named in Hin.
  apply list_elem_of_fmap in Hin as (x & -> & [Hx Hin]%list_elem_of_filter).
  exists x. split_and!; [done|done|done|].
  destruct Hscope as [He|[He|Hu]]; [by left|by right; left|].
  destruct (decide (effective_start name start = "")) as [|Hne]; [by left|].
  right; right. rewrite <- Hu. symmetry.
  eapply under_prefix_in_scope; [|exact Erp|done].
  by apply effective_start_normal.
Qed.

Lemma normpath_legal f :
  legal_name f = true → posixpath.normpath f = f.
Proof. intros Hf. apply (normpath_join [f]); [done|by constructor]. Qed.

Lemma dirname_legal f : legal_name f = true → posixpath.dirname f = "".
Proof. intros Hf. by apply (dirname_join [] f). Qed.

Lemma basename_legal f : legal_name f = true → posixpath.basename f = f.
Proof. intros Hf. by apply (basename_join [] f). Qed.

(** The scope of a lookup by a bare file name, by a file name under a start
    directory, and by a relative path. *)
Lemma effective_start_bare f start :
  legal_name f = true → start = None ∨ start = Some "" →
  effective_start f start = "".
Proof.
  intros Hf Hs. unfold effective_start. rewrite normpath_legal by done.
  rewrite dirname_legal by done. by destruct Hs as [-> | ->].
Qed.

Lemma effective_start_under cs f :
  cs ≠ [] → Forall (λ n, legal_name n = true) cs → legal_name f = true →
  effective_start f (Some (Str.join "/" cs)) = Str.join "/" cs.
Proof.
  intros Hcs Hall Hf. unfold effective_start. rewrite normpath_legal by done.
  rewrite dirname_legal by done. simpl default.
  destruct (stripped_join (Str.is_char "/") "/" cs Hcs (legal_stripped _ Hall))
    as [(a & t & E & Ha) (z & Hz1 & Hz2)].
  replace (posixpath.join (Str.join "/" cs) "")
    with (Str.join "/" cs +:+ "/").
  - rewrite normpath_join_slash by done. by rewrite E.
  - unfold posixpath.join, Str.endswith_char. rewrite Hz1, E. simpl.
    rewrite bool_decide_eq_false_2; [done|]. intros [= ->].
    unfold Str.is_char in Hz2. by rewrite bool_decide_eq_true_2 in Hz2.
Qed.

Lemma effective_start_path cs f start :
  cs ≠ [] → Forall (λ n, legal_name n = true) cs → legal_name f = true →
  start = None ∨ start = Some "" →
  effective_start (Str.join "/" (cs ++ [f])) start = Str.join "/" cs.
Proof.
  intros Hcs Hall Hf Hs. unfold effective_start.
  assert (Forall (λ n, legal_name n = true) (cs ++ [f])) as Hall'.
  { apply Forall_app. split; [done|by constructor]. }
  rewrite normpath_join by (done || by destruct cs).
  rewrite dirname_join by done.
  destruct (join_legal_first cs Hcs Hall) as (a & t & E & Ha).
  assert (default "" start = "") as -> by by destruct Hs as [-> | ->].
  rewrite E. simpl.
  assert (posixpath.join "" (String a t) = String a t) as ->.
  { unfold posixpath.join. simpl. by rewrite bool_decide_eq_false_2. }
  rewrite <- E. by apply normpath_join.
Qed.

Lemma find_rel_path_unscoped self name start first rest :
  name ≠ "" →
  tree self !! posixpath.basename (posixpath.normpath name) = Some (first :: rest) →
  effective_start name start = "" →
  find_rel_path self name start = Ok first.
Proof.
  intros Hn Hl He. unfold find_rel_path. destruct name; [done|].
  simpl Str.is_empty. cbv iota. by rewrite Hl, He.
Qed.

(** X18. A file that lies directly in the root is what an unscoped lookup
    of its name selects, however many files of that name lie deeper. *)
Theorem root_file_first w root_abs self f start :
  legal_world w → tree_scan w root_abs = Ok (tree self) →
  ([], f) ∈ files_below w root_abs →
  start = None ∨ start = Some "" →
  find_rel_path self f start = Ok f.
Proof.
  intros Hw Hscan Hin Hs.
  assert (legal_name f = true) as Hf.
  { unfold files_below in Hin.
    destruct (at_path w !! root_abs) as [[m c|m d]|] eqn:E;
      try by apply elem_of_nil in Hin.
    pose proof (files_under_legal d (legal_world_dir _ _ _ _ Hw E)) as Hall.
    rewrite Forall_forall in Hall. specialize (Hall _ Hin).
    by apply Forall_inv in Hall. }
  assert (f ∈ paths_named w root_abs f) as Hnamed.
  { unfold paths_named. apply (list_elem_of_fmap_2' _ _ ([], f)); [|done].
    by apply list_elem_of_filter. }
  destruct (tree_scan_has_entry _ _ _ _ _ Hw Hscan Hnamed)
    as (paths & Hl & Hp & Hsorted).
  rewrite <- Hp in Hnamed.
  destruct paths as [|first rest]; [by apply elem_of_nil in Hnamed|].
  assert (first = f) as ->.
  { apply StronglySorted_cons in Hsorted as [Hall _].
    assert (key_le first f) as Hle.
    { apply elem_of_cons in Hnamed as [->|Hr]; [done|].
      rewrite Forall_forall in Hall. by apply Hall. }
    assert (first ∈ paths_named w root_abs f) as Hfirst.
    { rewrite <- Hp. by left. }
    unfold paths_named in Hfirst.
    apply list_elem_of_fmap in Hfirst as (x & -> & [Hx Hxin]%list_elem_of_filter).
    pose proof (files_below_depth _ _ _ Hw Hxin) as Hd.
    pose proof (files_below_depth _ _ _ Hw Hin) as Hd'.
    change (rel_path_of ([], f)) with f in Hd'.
    unfold depth_of in *. simpl in Hd'.
    assert (_depth (rel_path_of x) ≤ _depth f) as Hdle.
    { destruct Hle as [?|[? _]]; lia. }
    destruct x as [[|c cs] g]; simpl in *; [by subst|lia]. }
  apply (find_rel_path_unscoped _ _ _ _ rest);
    [by destruct f| |by apply effective_start_bare].
  by rewrite normpath_legal, basename_legal.
Qed.

Lemma find_rel_path_select self name start rp :
  name ≠ "" →
  find_rel_path self name start = Ok rp
  ↔ select (tree self) (posixpath.basename (posixpath.normpath name))
      (effective_start name start) = Some rp.
Proof.
  intros Hn. unfold find_rel_path, select. destruct name as [|a name]; [done|].
  simpl Str.is_empty. cbv iota.
  destruct (tree self !! _) as [[|first rest]|]; [done| |done].
  destruct (_ || _); [by split; intros [= ->]|].
  destruct (List.find _ _); [by split; intros [= ->]|done].
Qed.

Lemma join_nonempty l :
  l ≠ [] → Forall (λ n, legal_name n = true) l → Str.join "/" l ≠ "".
Proof. intros Hl Hall. by destruct (join_legal_first l Hl Hall) as (a & t & -> & _). Qed.

(** X19. A directory given inside the name is a scope: looking up
    [dir/file] selects what looking up [file] with [start = dir] selects. *)
Theorem path_hint_is_scope self cs f rp :
  cs ≠ [] → Forall (λ n, legal_name n = true) cs → legal_name f = true →
  find_rel_path self (Str.join "/" (cs ++ [f])) None = Ok rp
  ↔ find_rel_path self f (Some (Str.join "/" cs)) = Ok rp.
Proof.
  intros Hcs Hall Hf.
  assert (Forall (λ n, legal_name n = true) (cs ++ [f])) as Hall'.
  { apply Forall_app. split; [done|by constructor]. }
  rewrite !find_rel_path_select;
    [|by apply legal_name_spec in Hf as []|apply join_nonempty; [by destruct cs|done]].
  rewrite effective_start_path, effective_start_under by auto.
  rewrite normpath_join by (done || by destruct cs).
  by rewrite basename_join, normpath_legal, basename_legal.
Qed.

(** In a sorted list, the search for a property finds the least element
    that has it. *)
Lemma find_sorted {A} (R : relation A) `{!AntiSymm (=) R} (p : A → bool) l x :
  StronglySorted R l → x ∈ l → p x = true →
  (∀ y, y ∈ l → p y = true → R x y) →
  List.find p l = Some x.
Proof.
  intros Hs Hin Hx Hleast. induction Hs as [|y l Hl IH Hall]; [by apply elem_of_nil in Hin|].
  simpl. destruct (p y) eqn:Hy.
  - f_equal. apply elem_of_cons in Hin as [->|Hin]; [done|].
    apply (anti_symm R).
    + rewrite Forall_forall in Hall. by apply Hall.
    + apply Hleast; [by left|done].
  - apply elem_of_cons in Hin as [->|Hin]; [congruence|].
    apply IH; [done|]. intros z Hz. apply Hleast. by right.
Qed.

Lemma files_below_legal w root_abs x :
  legal_world w → x ∈ files_below w root_abs →
  Forall (λ n, legal_name n = true) (x.1 ++ [x.2]).
Proof.
  intros Hw Hin. unfold files_below in Hin.
  destruct (at_path w !! root_abs) as [[m c|m d]|] eqn:E;
    try by apply elem_of_nil in Hin.
  pose proof (files_under_legal d (legal_world_dir _ _ _ _ Hw E)) as Hall.
  rewrite Forall_forall in Hall. by apply Hall.
Qed.

(** Among the paths of the files named [f], the path [cs/f] is the least
    of those within the scope [cs], provided none is the scope itself. *)
Lemma scope_least cs f ys :
  cs ≠ [] → Forall (λ n, legal_name n = true) (cs ++ [f]) →
  Forall (λ n, legal_name n = true) (ys ++ [f]) →
  Str.join "/" (ys ++ [f]) ≠ Str.join "/" cs →
  under_prefix (Str.join "/" cs) (Str.join "/" (ys ++ [f])) = true →
  key_le (Str.join "/" (cs ++ [f])) (Str.join "/" (ys ++ [f])).
Proof.
  intros Hcs Hall Hys Hne Hu. unfold under_prefix in Hu.
  apply orb_true_iff in Hu as [Heq|Hu]; [by apply bool_decide_eq_true in Heq|].
  apply startswith_decompose in Hu as [r Hr].
  apply Forall_app in Hall as [Hcsl Hf].
  assert (ys ++ [f] = cs ++ Str.split "/" r) as Hsplit.
  { rewrite <- (split_join (ys ++ [f])); [|by destruct ys|by apply legal_noslash].
    rewrite Hr, append_assoc. change ("/" +:+ r) with (String "/" r).
    rewrite split_app_sep. rewrite split_join; [done|done|by apply legal_noslash]. }
  unfold key_le. rewrite !_depth_join;
    [|by destruct ys|done|by destruct cs|by apply Forall_app].
  rewrite !length_app. simpl.
  pose proof (split_nonempty "/" r) as Hrne.
  apply (f_equal length) in Hsplit as Hlen. rewrite !length_app in Hlen. simpl in Hlen.
  destruct (Str.split "/" r) as [|g [|g' gs]] eqn:Eg; [done|..].
  - apply app_inj_tail in Hsplit as [-> _]. right. split; [done|]. reflexivity.
  - left. simpl in Hlen. lia.
Qed.

Lemma rstrip_join cs :
  cs ≠ [] → Forall (λ n, legal_name n = true) cs →
  Str.rstrip_char posixpath.sep (Str.join "/" cs) = Str.join "/" cs.
Proof.
  intros Hcs Hall.
  destruct (stripped_join (Str.is_char "/") "/" cs Hcs (legal_stripped _ Hall))
    as [_ (z & Hz1 & Hz2)].
  by apply (rstrip_keep _ _ z).
Qed.

(** The lookup of a file by its relative path, or by its name scoped to its
    directory. *)
Lemma select_exact w root_abs tree x :
  legal_world w → tree_scan w root_abs = Ok tree →
  x ∈ files_below w root_abs → x.1 ≠ [] →
  (∀ y, y ∈ files_below w root_abs → rel_path_of y ≠ Str.join "/" x.1) →
  select tree x.2 (Str.join "/" x.1) = Some (rel_path_of x).
Proof.
  intros Hw Hscan Hin Hcs Hnofile. destruct x as [cs f]. simpl in *.
  pose proof (files_below_legal _ _ _ Hw Hin) as Hall. simpl in Hall.
  assert (Forall (λ n, legal_name n = true) cs) as Hcsl by by apply Forall_app in Hall as [].
  assert (rel_path_of (cs, f) ∈ paths_named w root_abs f) as Hnamed.
  { unfold paths_named. apply list_elem_of_fmap_2. by apply list_elem_of_filter. }
  destruct (tree_scan_has_entry _ _ _ _ _ Hw Hscan Hnamed)
    as (paths & Hl & Hp & Hsorted).
  unfold select. rewrite Hl.
  destruct paths as [|p0 ps];
    [rewrite <- Hp in Hnamed; by apply elem_of_nil in Hnamed|].
  destruct (join_legal_first cs Hcs Hcsl) as (a & t & E & Ha).
  assert (Str.is_empty (Str.join "/" cs) || bool_decide (Str.join "/" cs = ".")
          = false) as ->.
  { rewrite E. simpl. apply bool_decide_eq_false_2. rewrite <- E.
    by apply join_not_dot. }
  rewrite rstrip_join by done.
  apply (find_sorted key_le); [done|by rewrite Hp| |].
  - unfold under_prefix, rel_path_of. simpl.
    rewrite join_snoc by done. rewrite <- append_assoc, startswith_app.
    apply orb_true_r.
  - intros rp Hrp Hu. rewrite Hp in Hrp. unfold paths_named in Hrp.
    apply list_elem_of_fmap in Hrp as ([ys g] & -> & [Hg Hyin]%list_elem_of_filter).
    simpl in Hg. subst g.
    pose proof (files_below_legal _ _ _ Hw Hyin) as Hys. simpl in Hys.
    apply scope_least; try done. by apply (Hnofile (ys, f)).
Qed.

(** X20. Looking a file up by its relative path selects that file: for a
    file under the scanned root, [find] with the file's relative path as
    the name, and [find] with the file's name and its directory as the
    start, select the file's relative path (no file lying at the path of
    its directory). *)
Theorem exact_path_found w root_abs self x :
  legal_world w → tree_scan w root_abs = Ok (tree self) →
  x ∈ files_below w root_abs → x.1 ≠ [] →
  (∀ y, y ∈ files_below w root_abs → rel_path_of y ≠ Str.join "/" x.1) →
  find_rel_path self (rel_path_of x) None = Ok (rel_path_of x)
  ∧ find_rel_path self x.2 (Some (Str.join "/" x.1)) = Ok (rel_path_of x).
Proof.
  intros Hw Hscan Hin Hcs Hnofile.
  pose proof (files_below_legal _ _ _ Hw Hin) as Hall.
  pose proof Hall as [Hcsl Hf%Forall_inv]%Forall_app.
  pose proof (select_exact _ _ _ _ Hw Hscan Hin Hcs Hnofile) as Hsel.
  split.
  - apply find_rel_path_select; [apply join_nonempty; [by destruct (x.1)|done]|].
    unfold rel_path_of. rewrite effective_start_path by auto.
    rewrite normpath_join by (done || by destruct (x.1)).
    by rewrite basename_join.
  - apply find_rel_path_select; [by apply legal_name_spec in Hf as []|].
    rewrite effective_start_under by done.
    by rewrite normpath_legal, basename_legal.
Qed.

End resolver.

(** ** Closed instances for the further properties *)

Lemma config_lookup_repeat_witness :
  _get_config demo_json demo_world "/etc/fcr.conf" KEY_VALUE None no_caches
  = (Ok (PDict {[ "root" := PStr "/srv/root" ]}), warm_caches)
  ∧ path_exists demo_world_rewritten "/etc/fcr.conf" = true
  ∧ getmtime demo_world_rewritten "/etc/fcr.conf"
    = getmtime demo_world "/etc/fcr.conf"
  ∧ _get_config demo_json demo_world_rewritten "/etc/fcr.conf" KEY_VALUE
      (Some ["port"]) warm_caches
    = (Ok (PDict {[ "root" := PStr "/srv/root" ]}), warm_caches).
Proof.
  pose proof (config_lookup_repeat demo_json demo_world demo_world_rewritten
                "/etc/fcr.conf" KEY_VALUE None (Some ["port"]) no_caches
                (PDict {[ "root" := PStr "/srv/root" ]}) warm_caches) as H.
  split_and!.
  - (vm_compute; reflexivity).
  - (vm_compute; reflexivity).
  - (vm_compute; reflexivity).
  - apply H; (vm_compute; reflexivity).
Defined.

Lemma config_lookup_frame_witness :
  _get_config demo_json demo_world "/etc/noroot.conf" KEY_VALUE None full_caches
  = (Ok (PDict {[ "name" := PStr "demo" ]}),
     Caches (<[ ("/etc/noroot.conf", KEY_VALUE)
                := CacheEntry 9 (PDict {[ "name" := PStr "demo" ]}) ]>
               (_config_cache full_caches))
            (_tree_cache full_caches))
  ∧ ("/etc/fcr.conf", KEY_VALUE) ≠ ("/etc/noroot.conf", KEY_VALUE)
  ∧ (<[ ("/etc/noroot.conf", KEY_VALUE)
        := CacheEntry 9 (PDict {[ "name" := PStr "demo" ]}) ]>
       (_config_cache full_caches)) !! ("/etc/fcr.conf", KEY_VALUE)
    = _config_cache full_caches !! ("/etc/fcr.conf", KEY_VALUE).
Proof.
  assert (_get_config demo_json demo_world "/etc/noroot.conf" KEY_VALUE None
            full_caches
          = (Ok (PDict {[ "name" := PStr "demo" ]}),
             Caches (<[ ("/etc/noroot.conf", KEY_VALUE)
                        := CacheEntry 9 (PDict {[ "name" := PStr "demo" ]}) ]>
                       (_config_cache full_caches))
                    (_tree_cache full_caches))) as H by (vm_compute; reflexivity).
  assert (("/etc/fcr.conf", KEY_VALUE) ≠ ("/etc/noroot.conf", KEY_VALUE))
    as Hne by done.
  destruct (config_lookup_frame demo_json _ _ _ _ _ _ _ H) as [_ Hframe].
  split_and!; [exact H|exact Hne|exact (Hframe _ Hne)].
Defined.

Lemma tree_lookup_memo_witness :
  _get_tree demo_world "/srv/root" no_caches
  = (Ok demo_tree, Caches ∅ {[ "/srv/root" := demo_tree ]})
  ∧ path_exists bad_world "/srv/root" = false
  ∧ _get_tree bad_world "/srv/root" (Caches ∅ {[ "/srv/root" := demo_tree ]})
    = (Ok demo_tree, Caches ∅ {[ "/srv/root" := demo_tree ]}).
Proof.
  assert (_get_tree demo_world "/srv/root" no_caches
          = (Ok demo_tree, Caches ∅ {[ "/srv/root" := demo_tree ]})) as H
    by (vm_compute; reflexivity).
  split_and!; [exact H|(vm_compute; reflexivity)|].
  exact (proj2 (tree_lookup_memo demo_world bad_world _ _ _ _ H)).
Defined.

Lemma tree_lookup_frame_witness :
  _get_tree demo_world "/srv/root" warm_caches
  = (Ok demo_tree, full_caches)
  ∧ _config_cache full_caches = _config_cache warm_caches
  ∧ _tree_cache full_caches !! "/mnt/copy" = _tree_cache warm_caches !! "/mnt/copy".
Proof.
  assert (_get_tree demo_world "/srv/root" warm_caches
          = (Ok demo_tree, full_caches)) as H by (vm_compute; reflexivity).
  destruct (tree_lookup_frame _ _ _ _ _ H) as [Hc Ht].
  split_and!; [exact H|exact Hc|]. by apply Ht.
Defined.

Lemma facade_in_caches_witness :
  __init__ demo_json demo_world "/etc/fcr.conf" KEY_VALUE None false no_caches
  = (Ok demo_facade, full_caches)
  ∧ posixpath.isabs (getcwd demo_world) = true
  ∧ _config_cache full_caches !! ("/etc/fcr.conf", KEY_VALUE)
    = Some (CacheEntry (getmtime demo_world "/etc/fcr.conf") (config demo_facade))
  ∧ _tree_cache full_caches !! root demo_facade = Some (tree demo_facade)
  ∧ posixpath.isabs (root demo_facade) = true.
Proof.
  assert (__init__ demo_json demo_world "/etc/fcr.conf" KEY_VALUE None false
            no_caches = (Ok demo_facade, full_caches)) as H by (vm_compute; reflexivity).
  assert (posixpath.isabs (getcwd demo_world) = true) as Hcwd by (vm_compute; reflexivity).
  destruct (facade_in_caches demo_json _ _ _ _ _ _ _ _ H) as (H1 & H2 & H3).
  split_and!; [exact H|exact Hcwd|exact H1|exact H2|exact (H3 Hcwd)].
Defined.

Lemma force_refresh_reloads_witness :
  (__init__ demo_json demo_world "/etc/fcr.conf" KEY_VALUE None true warm_caches
   = (Ok demo_facade, full_caches)
   ∧ load_config demo_json demo_world "/etc/fcr.conf" KEY_VALUE None
     = Ok (config demo_facade))
  ∧ (path_exists bad_world "/etc/bad.conf" = true
     ∧ load_config demo_json bad_world "/etc/bad.conf" KEY_VALUE None
       = Raise (unpack_error)
     ∧ __init__ demo_json bad_world "/etc/bad.conf" KEY_VALUE None true warm_caches
       = (Raise (unpack_error), after_refresh "/etc/bad.conf" true warm_caches)).
Proof.
  assert (__init__ demo_json demo_world "/etc/fcr.conf" KEY_VALUE None true
            warm_caches = (Ok demo_facade, full_caches)) as H by (vm_compute; reflexivity).
  assert (path_exists bad_world "/etc/bad.conf" = true) as Hex by (vm_compute; reflexivity).
  assert (load_config demo_json bad_world "/etc/bad.conf" KEY_VALUE None
          = Raise (unpack_error)) as Hl by (vm_compute; reflexivity).
  split.
  - split; [exact H|].
    exact (proj1 (force_refresh_reloads demo_json demo_world "/etc/fcr.conf"
                    KEY_VALUE None warm_caches) _ _ H).
  - split_and!; [exact Hex|exact Hl|].
    exact (proj2 (force_refresh_reloads demo_json bad_world "/etc/bad.conf"
                    KEY_VALUE None warm_caches) _ Hex Hl).
Defined.

Lemma constructor_repeat_witness :
  __init__ demo_json demo_world "/etc/fcr.conf" KEY_VALUE None false no_caches
  = (Ok demo_facade, full_caches)
  ∧ path_exists demo_world_rewritten "/etc/fcr.conf" = true
  ∧ getmtime demo_world_rewritten "/etc/fcr.conf"
    = getmtime demo_world "/etc/fcr.conf"
  ∧ getcwd demo_world_rewritten = getcwd demo_world
  ∧ __init__ demo_json demo_world_rewritten "/etc/fcr.conf" KEY_VALUE
      (Some ["port"]) false full_caches
    = (Ok demo_facade, full_caches).
Proof.
  assert (__init__ demo_json demo_world "/etc/fcr.conf" KEY_VALUE None false
            no_caches = (Ok demo_facade, full_caches)) as H by (vm_compute; reflexivity).
  split_and!; [exact H|(vm_compute; reflexivity)|(vm_compute; reflexivity)|(vm_compute; reflexivity)|].
  apply (constructor_repeat demo_json demo_world demo_world_rewritten
           "/etc/fcr.conf" KEY_VALUE None (Some ["port"]) false no_caches);
    [exact H|(vm_compute; reflexivity)..].
Defined.

Lemma trees_scanned_kept_witness :
  legal_world demo_world ∧ trees_scanned no_caches
  ∧ __init__ demo_json demo_world "/etc/fcr.conf" KEY_VALUE None false no_caches
    = (Ok demo_facade, full_caches)
  ∧ trees_scanned full_caches ∧ scanned_tree (tree demo_facade).
Proof.
  assert (trees_scanned no_caches) as H0 by apply map_Forall_empty.
  assert (__init__ demo_json demo_world "/etc/fcr.conf" KEY_VALUE None false
            no_caches = (Ok demo_facade, full_caches)) as H by (vm_compute; reflexivity).
  destruct (trees_scanned_kept demo_json demo_world no_caches demo_world_legal H0)
    as (_ & _ & _ & Hinit).
  destruct (Hinit _ _ _ _ _ _ H) as [H1 H2].
  split_and!; [apply demo_world_legal|exact H0|exact H|exact H1|by apply H2].
Defined.

Lemma key_value_loads_iff_witness :
  at_path bad_world !! "/etc/bad.conf" = Some (RegularFile 3 bad_conf)
  ∧ ((∃ config, load_config demo_json bad_world "/etc/bad.conf" KEY_VALUE None
                = Ok config)
     ↔ ¬ Exists malformed_line (file_lines bad_conf)).
Proof.
  assert (at_path bad_world !! "/etc/bad.conf" = Some (RegularFile 3 bad_conf))
    as H by (vm_compute; reflexivity).
  split; [exact H|]. exact (key_value_loads_iff demo_json _ _ _ _ H).
Defined.

Lemma key_value_entries_witness :
  at_path twice_world !! "/etc/twice.conf" = Some (RegularFile 4 twice_conf)
  ∧ load_config demo_json twice_world "/etc/twice.conf" KEY_VALUE None
    = Ok (PDict {[ "k" := PStr "2" ]})
  ∧ ({[ "k" := PStr "2" ]} : gmap string pyval) !! "k" = Some (PStr "2")
  ∧ ∃ value,
      PStr "2" = PStr value
      ∧ Str.strip value = value ∧ Str.strip "k" = "k" ∧ Str.count "=" "k" = 0
      ∧ ∃ line, line ∈ file_lines twice_conf ∧ assigns line "k" value.
Proof.
  assert (at_path twice_world !! "/etc/twice.conf"
          = Some (RegularFile 4 twice_conf)) as H by (vm_compute; reflexivity).
  assert (load_config demo_json twice_world "/etc/twice.conf" KEY_VALUE None
          = Ok (PDict {[ "k" := PStr "2" ]})) as Hl by (vm_compute; reflexivity).
  assert (({[ "k" := PStr "2" ]} : gmap string pyval) !! "k" = Some (PStr "2"))
    as Hk by (vm_compute; reflexivity).
  split_and!; [exact H|exact Hl|exact Hk|].
  exact (key_value_entries demo_json _ _ _ _ _ _ _ H Hl Hk).
Defined.

Lemma key_value_last_wins_witness :
  at_path twice_world !! "/etc/twice.conf" = Some (RegularFile 4 twice_conf)
  ∧ load_config demo_json twice_world "/etc/twice.conf" KEY_VALUE None
    = Ok (PDict {[ "k" := PStr "2" ]})
  ∧ file_lines twice_conf = ["k = 1" +:+ nl] ++ ("k = 2" +:+ nl) :: []
  ∧ assigns ("k = 2" +:+ nl) "k" "2"
  ∧ ({[ "k" := PStr "2" ]} : gmap string pyval) !! "k" = Some (PStr "2").
Proof.
  assert (at_path twice_world !! "/etc/twice.conf"
          = Some (RegularFile 4 twice_conf)) as H by (vm_compute; reflexivity).
  assert (load_config demo_json twice_world "/etc/twice.conf" KEY_VALUE None
          = Ok (PDict {[ "k" := PStr "2" ]})) as Hl by (vm_compute; reflexivity).
  assert (file_lines twice_conf = ["k = 1" +:+ nl] ++ ("k = 2" +:+ nl) :: [])
    as Hlines by (vm_compute; reflexivity).
  assert (assigns ("k = 2" +:+ nl) "k" "2") as Ha.
  { exists "k ", " 2". split_and!; (vm_compute; reflexivity). }
  split_and!; [exact H|exact Hl|exact Hlines|exact Ha|].
  exact (proj1 (key_value_last_wins demo_json _ _ _ _ _ "k" H Hl)
           _ _ _ _ Hlines Ha (Forall_nil_2 _)).
Defined.

Lemma required_keys_checked_witness :
  load_config demo_json demo_world "/etc/fcr.conf" KEY_VALUE None
  = Ok (PDict {[ "root" := PStr "/srv/root" ]})
  ∧ load_config demo_json demo_world "/etc/fcr.conf" KEY_VALUE
      (Some ["port"; "root"; "host"])
    = Raise (KeyError "Missing required configuration keys: port, host")
  ∧ load_config demo_json demo_world "/etc/fcr.json" JSON None
    = Ok (PDict {[ "root" := PInt 5 ]})
  ∧ load_config demo_json demo_world "/etc/fcr.json" JSON (Some ["root"])
    = Ok (PDict {[ "root" := PInt 5 ]})
  ∧ load_config demo_json json_world "/etc/list.json" JSON None
    = Ok (PList [PInt 1])
  ∧ container (PList [PInt 1])
  ∧ load_config demo_json json_world "/etc/list.json" JSON (Some ["root"])
    = Raise (KeyError "Missing required JSON keys: root")
  ∧ load_config demo_json json_world "/etc/five.json" JSON None = Ok (PInt 5)
  ∧ ¬ container (PInt 5)
  ∧ load_config demo_json json_world "/etc/five.json" JSON (Some ["root"])
    = Raise (TypeError "argument of type 'int' is not iterable").
Proof.
  assert (load_config demo_json demo_world "/etc/fcr.conf" KEY_VALUE None
          = Ok (PDict {[ "root" := PStr "/srv/root" ]})) as H1
    by (vm_compute; reflexivity).
  assert (load_config demo_json demo_world "/etc/fcr.json" JSON None
          = Ok (PDict {[ "root" := PInt 5 ]})) as H2 by (vm_compute; reflexivity).
  assert (load_config demo_json json_world "/etc/list.json" JSON None
          = Ok (PList [PInt 1])) as H3 by (vm_compute; reflexivity).
  assert (load_config demo_json json_world "/etc/five.json" JSON None
          = Ok (PInt 5)) as H4 by (vm_compute; reflexivity).
  destruct (proj1 (required_keys_checked demo_json demo_world "/etc/fcr.conf"
                     KEY_VALUE ["port"; "root"; "host"]) _ H1)
    as (_ & K1 & _).
  destruct (proj1 (required_keys_checked demo_json demo_world "/etc/fcr.json"
                     JSON ["root"]) _ H2) as (_ & K2 & _).
  destruct (proj1 (required_keys_checked demo_json json_world "/etc/list.json"
                     JSON ["root"]) _ H3) as (_ & _ & K3 & _).
  destruct (proj1 (required_keys_checked demo_json json_world "/etc/five.json"
                     JSON ["root"]) _ H4) as (_ & _ & _ & K4 & _).
  split_and!.
  - exact H1.
  - rewrite (K1 _ eq_refl). vm_compute; reflexivity.
  - exact H2.
  - rewrite (K2 _ eq_refl). vm_compute; reflexivity.
  - exact H3.
  - exact I.
  - rewrite (K3 I). vm_compute; reflexivity.
  - exact H4.
  - intros [].
  - apply K4; [intros []|done].
Defined.

Lemma shuffled_world_legal : legal_world shuffled_world.
Proof.
  split; [done|]. refine (bool_decide_unpack _ _). vm_compute. exact I.
Qed.

Lemma index_of_files_only_witness :
  legal_world demo_world ∧ legal_world shuffled_world
  ∧ path_exists demo_world "/srv/root" = true
  ∧ path_exists shuffled_world "/mnt/copy" = true
  ∧ files_below demo_world "/srv/root" ≡ₚ files_below shuffled_world "/mnt/copy"
  ∧ files_below demo_world "/srv/root" ≠ files_below shuffled_world "/mnt/copy"
  ∧ tree_scan demo_world "/srv/root" = tree_scan shuffled_world "/mnt/copy".
Proof.
  assert (files_below demo_world "/srv/root"
          ≡ₚ files_below shuffled_world "/mnt/copy") as Hp.
  { refine (bool_decide_unpack _ _). vm_compute. exact I. }
  split_and!; [apply demo_world_legal|apply shuffled_world_legal|(vm_compute; reflexivity)
              |(vm_compute; reflexivity)|exact Hp
              |vm_compute; intros Heq; discriminate Heq|].
  apply index_of_files_only;
    [apply demo_world_legal|apply shuffled_world_legal|done|(vm_compute; reflexivity)
    |done|(vm_compute; reflexivity)|exact Hp].
Defined.

Lemma find_sound_witness :
  legal_world demo_world
  ∧ tree_scan demo_world "/srv/root" = Ok (tree demo_facade)
  ∧ find_rel_path demo_facade "x.txt" (Some "b") = Ok "b/x.txt"
  ∧ ∃ x, x ∈ files_below demo_world "/srv/root"
         ∧ x.2 = posixpath.basename (posixpath.normpath "x.txt")
         ∧ "b/x.txt" = rel_path_of x
         ∧ (effective_start "x.txt" (Some "b") = ""
            ∨ effective_start "x.txt" (Some "b") = "."
            ∨ in_scope (effective_start "x.txt" (Some "b")) "b/x.txt" = true).
Proof.
  assert (tree_scan demo_world "/srv/root" = Ok (tree demo_facade)) as Hs
    by (vm_compute; reflexivity).
  assert (find_rel_path demo_facade "x.txt" (Some "b") = Ok "b/x.txt") as Hf
    by (vm_compute; reflexivity).
  split_and!; [apply demo_world_legal|exact Hs|exact Hf|].
  exact (find_sound demo_world "/srv/root" demo_facade "x.txt" (Some "b") "b/x.txt"
           demo_world_legal Hs Hf).
Defined.

Lemma root_file_first_witness :
  legal_world demo_world
  ∧ tree_scan demo_world "/srv/root" = Ok (tree demo_facade)
  ∧ ([], "x.txt") ∈ files_below demo_world "/srv/root"
  ∧ find_rel_path demo_facade "x.txt" (Some "") = Ok "x.txt".
Proof.
  assert (tree_scan demo_world "/srv/root" = Ok (tree demo_facade)) as Hs
    by (vm_compute; reflexivity).
  assert (([], "x.txt") ∈ files_below demo_world "/srv/root") as Hin.
  { refine (bool_decide_unpack _ _). vm_compute. exact I. }
  split_and!; [apply demo_world_legal|exact Hs|exact Hin|].
  apply (root_file_first demo_world "/srv/root" demo_facade "x.txt" (Some "")
           demo_world_legal Hs Hin).
  by right.
Defined.

Lemma path_hint_is_scope_witness :
  Forall (λ n, legal_name n = true) ["b"; "c"] ∧ legal_name "x.txt" = true
  ∧ (find_rel_path demo_facade (Str.join "/" (["b"; "c"] ++ ["x.txt"])) None
     = Ok "b/c/x.txt"
     ↔ find_rel_path demo_facade "x.txt" (Some (Str.join "/" ["b"; "c"]))
       = Ok "b/c/x.txt").
Proof.
  assert (Forall (λ n, legal_name n = true) ["b"; "c"]) as Hall
    by (repeat constructor).
  assert (legal_name "x.txt" = true) as Hf by (vm_compute; reflexivity).
  split_and!; [exact Hall|exact Hf|].
  by apply (path_hint_is_scope demo_facade ["b"; "c"] "x.txt" "b/c/x.txt").
Defined.

Lemma exact_path_found_witness :
  legal_world demo_world
  ∧ tree_scan demo_world "/srv/root" = Ok (tree demo_facade)
  ∧ (["b"; "c"], "x.txt") ∈ files_below demo_world "/srv/root"
  ∧ Forall (λ y, rel_path_of y ≠ "b/c") (files_below demo_world "/srv/root")
  ∧ find_rel_path demo_facade "b/c/x.txt" None = Ok "b/c/x.txt"
  ∧ find_rel_path demo_facade "x.txt" (Some "b/c") = Ok "b/c/x.txt".
Proof.
  assert (tree_scan demo_world "/srv/root" = Ok (tree demo_facade)) as Hs
    by (vm_compute; reflexivity).
  assert ((["b"; "c"], "x.txt") ∈ files_below demo_world "/srv/root") as Hin.
  { refine (bool_decide_unpack _ _). vm_compute. exact I. }
  assert (Forall (λ y, rel_path_of y ≠ "b/c") (files_below demo_world "/srv/root"))
    as Hno.
  { refine (bool_decide_unpack _ _). vm_compute. exact I. }
  destruct (exact_path_found demo_world "/srv/root" demo_facade
              (["b"; "c"], "x.txt") demo_world_legal Hs Hin) as [H1 H2];
    [done|by apply Forall_forall|].
  split_and!; [apply demo_world_legal|exact Hs|exact Hin|exact Hno|exact H1|exact H2].
Defined.
